(** * DRM PRIME video buffers and their pool

    A shallow embedding of the buffer life cycle of
    [xbmc/cores/VideoPlayer/DVDCodecs/Video/DVDVideoCodecDRMPRIME.cpp]:
    the buffer slot ([CVideoBufferDRMPRIME]), the pool
    ([CVideoBufferPoolDRMPRIME]) and the hand-over of a decoded frame in
    [CDVDVideoCodecDRMPRIME::GetPicture].

    Calls into the kernel (libdrm) and into libavutil are recorded in a
    trace; their results come from the environment and are arbitrary.

    The model is sequential: [Get] and [Return] each run under the pool's
    [CSingleLock], so one call is one step. [operator new] and the growth of
    the standard containers are taken to succeed; the allocation whose
    failure is a return value, [av_frame_alloc], may fail. *)

From stdpp Require Import base list.
From Stdlib Require Import ZArith Lia.

Local Open Scope Z_scope.

(** ** The environment: kernel, libavutil, and the trace of calls *)

(** What leaves the program: the two kernel release calls of [Unref], the
    allocation of a frame holder, and the moment libavutil drops the data of a
    frame ([av_frame_unref] on a frame that references data). *)
Inductive Event : Type :=
| EvRmFB (fd fb_id : Z)          (* drmModeRmFB(fd, fb_id) *)
| EvGemClose (fd handle : Z)     (* drmIoctl(fd, DRM_IOCTL_GEM_CLOSE, {handle}) *)
| EvFrameAlloc                   (* av_frame_alloc() *)
| EvFrameDrop (payload : Z).     (* the buffers of a frame are unreferenced *)

Global Instance Event_eq_dec : EqDecision Event.
Proof. solve_decision. Defined.

(** The world threads the trace; the two oracles answer, from the calls made
    so far, with the return code of a kernel call and with whether the next
    [av_frame_alloc] finds memory. *)
Record World : Type := mkWorld {
  w_trace : list Event;
  w_kernel : list Event -> Event -> Z;
  w_heap : list Event -> bool
}.

Definition log (evs : list Event) (w : World) : World :=
  mkWorld (w_trace w ++ evs) (w_kernel w) (w_heap w).

(** Computations: state passing over the world; [None] stands for undefined
    behaviour (an index outside a vector, a null pointer dereferenced). *)
Definition M (A : Type) : Type := World -> option (A * World).

Definition ret {A} (a : A) : M A := fun w => Some (a, w).

Definition bind {A B} (m : M A) (k : A -> M B) : M B :=
  fun w => match m w with
           | Some (a, w') => k a w'
           | None => None
           end.

Definition undefined {A} : M A := fun _ => None.

Notation "x <- m ;; k" := (bind m (fun x => k))
  (at level 100, m at next level, right associativity).
Notation "m ;;; k" := (bind m (fun _ => k))
  (at level 100, right associativity).

(** A call to the kernel: logged, answered by the oracle. *)
Definition kernel_call (e : Event) : M Z :=
  fun w => Some (w_kernel w (w_trace w) e, log [e] w).

Definition drmModeRmFB (fd fb_id : Z) : M Z := kernel_call (EvRmFB fd fb_id).

Definition drmIoctl_GEM_CLOSE (fd handle : Z) : M Z :=
  kernel_call (EvGemClose fd handle).

(** ** libavutil frames *)

(** An [AVFrame] either references the data of one decoded picture or is
    blank (what [av_frame_alloc] and [av_frame_unref] leave). *)
Inductive AVFrame : Type :=
| FrameEmpty
| FrameData (payload : Z).

Global Instance AVFrame_eq_dec : EqDecision AVFrame.
Proof. solve_decision. Defined.

(** [av_frame_alloc]: a blank frame, or NULL when there is no memory. *)
Definition av_frame_alloc : M (option AVFrame) :=
  fun w => Some (if w_heap w (w_trace w) then Some FrameEmpty else None,
                 log [EvFrameAlloc] w).

(** [av_frame_unref(frame)]: drops the data the frame references and blanks
    it; nothing to drop on a blank frame, and a NULL frame is left alone. *)
Definition av_frame_unref (frame : option AVFrame) : M (option AVFrame) :=
  match frame with
  | None => ret None
  | Some FrameEmpty => ret (Some FrameEmpty)
  | Some (FrameData d) => fun w => Some (Some FrameEmpty, log [EvFrameDrop d] w)
  end.

(** [av_frame_move_ref(dst, src)]: [*dst = *src], then [src] is blanked. The
    old content of [dst] is overwritten, not unreferenced. The result is the
    new [dst] and the new [src]; a NULL [dst] is dereferenced. *)
Definition av_frame_move_ref (dst : option AVFrame) (src : AVFrame)
  : M (option AVFrame * AVFrame) :=
  match dst with
  | None => undefined
  | Some _ => ret (Some src, FrameEmpty)
  end.

(** ** Machine integers *)

Definition INT_MAX : Z := 2147483647.

(** Conversion of a [size_t] to [int] (two's complement, 32 bits). *)
Definition to_int (z : Z) : Z := (z + 2 ^ 31) mod 2 ^ 32 - 2 ^ 31.

(** [v[i]] on a [std::vector]: undefined outside [0 <= i < v.size()]. *)
Definition vector_at {A} (v : list A) (i : Z) : M A :=
  if bool_decide (0 <= i < Z.of_nat (length v)) then
    match v !! Z.to_nat i with
    | Some a => ret a
    | None => undefined
    end
  else undefined.

(** ** The buffer slot: [CVideoBufferDRMPRIME] *)

(** [AV_DRM_MAX_PLANES] of libavutil/hwcontext_drm.h: the length of the
    [m_handles] array. *)
Definition AV_DRM_MAX_PLANES : nat := 4.

(** The fields of the slot. [m_id] and [m_refCount] are those of the base
    class [CVideoBuffer]; [m_pFrame] is a pointer ([None] is NULL). *)
Record CVideoBufferDRMPRIME : Type := mkBuffer {
  m_id : Z;
  m_refCount : Z;
  m_drm_fd : Z;
  m_fb_id : Z;
  m_handles : list Z;
  m_pFrame : option AVFrame
}.

(** Modelled from the spec: the member initialisers of
    DVDVideoCodecDRMPRIME.h and the constructor of the base class
    [CVideoBuffer] are not part of the sources at hand. A slot is created
    idle (no frame-buffer registration, every handle absent), with the id it
    is given and no holder yet; no descriptor is known, written -1. *)
Definition CVideoBuffer_init (id : Z) (frame : option AVFrame)
  : CVideoBufferDRMPRIME :=
  mkBuffer id 0 (-1) 0 (replicate AV_DRM_MAX_PLANES 0) frame.

(** The constructor: [m_pFrame = av_frame_alloc()], result unchecked. *)
Definition new_CVideoBufferDRMPRIME (id : Z) : M CVideoBufferDRMPRIME :=
  f <- av_frame_alloc ;;
  ret (CVideoBuffer_init id f).

(** [SetRef(frame)]: only [av_frame_move_ref(m_pFrame, frame)]. The result
    is the slot and what is left in the caller's frame. *)
Definition SetRef (s : CVideoBufferDRMPRIME) (frame : AVFrame)
  : M (CVideoBufferDRMPRIME * AVFrame) :=
  r <- av_frame_move_ref (m_pFrame s) frame ;;
  ret (mkBuffer (m_id s) (m_refCount s) (m_drm_fd s) (m_fb_id s) (m_handles s)
         (fst r),
       snd r).

(** The loop of [Unref] over the planes, in ascending index: a handle that is
    not zero is closed and zeroed; the return code of the ioctl is dropped. *)
Fixpoint close_handles (fd : Z) (hs : list Z) : M (list Z) :=
  match hs with
  | [] => ret []
  | h :: rest =>
      h' <- (if bool_decide (h = 0) then ret h
             else (drmIoctl_GEM_CLOSE fd h ;;; ret 0)) ;;
      rest' <- close_handles fd rest ;;
      ret (h' :: rest')
  end.

(** [Unref()]: remove the frame buffer if one is registered, close the
    handles, unreference the frame. No return code is looked at. *)
Definition Unref (s : CVideoBufferDRMPRIME) : M CVideoBufferDRMPRIME :=
  fb <- (if bool_decide (m_fb_id s = 0) then ret (m_fb_id s)
         else (drmModeRmFB (m_drm_fd s) (m_fb_id s) ;;; ret 0)) ;;
  hs <- close_handles (m_drm_fd s) (m_handles s) ;;
  fr <- av_frame_unref (m_pFrame s) ;;
  ret (mkBuffer (m_id s) (m_refCount s) (m_drm_fd s) fb hs fr).

(** Modelled from the spec: [CVideoBuffer::Acquire] belongs to the base
    class, which is not part of the sources at hand. It increments the count
    of external holders (the pool pointer it is given is not kept here: there
    is one pool). *)
Definition Acquire (s : CVideoBufferDRMPRIME) : CVideoBufferDRMPRIME :=
  mkBuffer (m_id s) (m_refCount s + 1) (m_drm_fd s) (m_fb_id s) (m_handles s)
    (m_pFrame s).

(** What a slot holds. *)
Definition frame_of (s : CVideoBufferDRMPRIME) : AVFrame :=
  match m_pFrame s with
  | Some f => f
  | None => FrameEmpty
  end.

(** A slot is idle when it holds no frame-buffer registration, no memory
    handle and no frame data. *)
Definition idle (s : CVideoBufferDRMPRIME) : Prop :=
  m_fb_id s = 0 /\ Forall (fun h => h = 0) (m_handles s) /\ frame_of s = FrameEmpty.

Global Instance idle_dec s : Decision (idle s).
Proof. unfold idle. apply _. Defined.

(** The kernel calls [Unref] makes for a slot, in order. *)
Definition fb_events (s : CVideoBufferDRMPRIME) : list Event :=
  if bool_decide (m_fb_id s = 0) then [] else [EvRmFB (m_drm_fd s) (m_fb_id s)].

Definition handle_events (fd : Z) (hs : list Z) : list Event :=
  EvGemClose fd <$> filter (fun h => h <> 0) hs.

Definition frame_events (s : CVideoBufferDRMPRIME) : list Event :=
  match frame_of s with
  | FrameEmpty => []
  | FrameData d => [EvFrameDrop d]
  end.

Definition Unref_events (s : CVideoBufferDRMPRIME) : list Event :=
  fb_events s ++ handle_events (m_drm_fd s) (m_handles s) ++ frame_events s.

(** The slot [Unref] leaves. *)
Definition Unref_slot (s : CVideoBufferDRMPRIME) : CVideoBufferDRMPRIME :=
  mkBuffer (m_id s) (m_refCount s) (m_drm_fd s) 0
    (replicate (length (m_handles s)) 0)
    (match m_pFrame s with Some _ => Some FrameEmpty | None => None end).

(** Which events are release calls into the kernel. *)
Definition is_kernel_release (e : Event) : bool :=
  match e with
  | EvRmFB _ _ | EvGemClose _ _ => true
  | _ => false
  end.

(** ** The pool: [CVideoBufferPoolDRMPRIME] *)

(** [m_all] holds the slot objects; a pointer to a slot is its position in
    [m_all] (a slot is pushed there when it is created and never leaves), so
    the pool and every holder see the same object. [m_used] and [m_free] are
    the two deques of ids. *)
Record CVideoBufferPoolDRMPRIME : Type := mkPool {
  m_all : list CVideoBufferDRMPRIME;
  m_used : list Z;
  m_free : list Z
}.

Definition empty_pool : CVideoBufferPoolDRMPRIME := mkPool [] [] [].

(** Write through a pointer to a slot. *)
Definition store (p : CVideoBufferPoolDRMPRIME) (ptr : Z)
    (s : CVideoBufferDRMPRIME) : CVideoBufferPoolDRMPRIME :=
  mkPool (<[Z.to_nat ptr := s]> (m_all p)) (m_used p) (m_free p).

(** [Get()]: the front of [m_free] if there is one, a new slot otherwise;
    the slot is acquired and a pointer to it returned. *)
Definition Get (p : CVideoBufferPoolDRMPRIME)
  : M (Z * CVideoBufferPoolDRMPRIME) :=
  match m_free p with
  | idx :: rest =>
      let p1 := mkPool (m_all p) (m_used p ++ [idx]) rest in
      buf <- vector_at (m_all p1) idx ;;
      ret (idx, store p1 idx (Acquire buf))
  | [] =>
      let id := to_int (Z.of_nat (length (m_all p))) in
      buf <- new_CVideoBufferDRMPRIME id ;;
      ret (Z.of_nat (length (m_all p)),
           mkPool (m_all p ++ [Acquire buf]) (m_used p ++ [id]) [])
  end.

(** The loop of [Return] over [m_used]: the first entry equal to [id] is
    erased, nothing happens when there is none. *)
Fixpoint erase_first (id : Z) (l : list Z) : list Z :=
  match l with
  | [] => []
  | x :: rest => if bool_decide (x = id) then rest else x :: erase_first id rest
  end.

(** [Return(id)]: [m_all[id]->Unref()], erase [id] from [m_used], push it at
    the back of [m_free]. *)
Definition Return (id : Z) (p : CVideoBufferPoolDRMPRIME)
  : M CVideoBufferPoolDRMPRIME :=
  s <- vector_at (m_all p) id ;;
  s' <- Unref s ;;
  ret (mkPool (<[Z.to_nat id := s']> (m_all p))
         (erase_first id (m_used p))
         (m_free p ++ [id])).

(** Modelled from the spec: [CVideoBuffer::Release] belongs to the base
    class, which is not part of the sources at hand. It decrements the count
    of holders and, when the count reaches zero, returns the slot to the pool
    under its id. *)
Definition Release (ptr : Z) (p : CVideoBufferPoolDRMPRIME)
  : M CVideoBufferPoolDRMPRIME :=
  s <- vector_at (m_all p) ptr ;;
  let s' := mkBuffer (m_id s) (m_refCount s - 1) (m_drm_fd s) (m_fb_id s)
              (m_handles s) (m_pFrame s) in
  if bool_decide (m_refCount s' = 0) then Return (m_id s') (store p ptr s')
  else ret (store p ptr s').

(** Sequences of calls on the pool. *)
Inductive Call : Type :=
| CallGet
| CallReturn (id : Z).

Definition step (c : Call) (p : CVideoBufferPoolDRMPRIME)
  : M CVideoBufferPoolDRMPRIME :=
  match c with
  | CallGet => r <- Get p ;; ret (snd r)
  | CallReturn id => Return id p
  end.

Fixpoint run (cs : list Call) (p : CVideoBufferPoolDRMPRIME)
  : M CVideoBufferPoolDRMPRIME :=
  match cs with
  | [] => ret p
  | c :: rest => p' <- step c p ;; run rest p'
  end.

(** The caller's side of the contract of [Return]: an id is returned only
    while it is in [m_used]. *)
Fixpoint contract_ok (cs : list Call) (p : CVideoBufferPoolDRMPRIME)
    (w : World) : bool :=
  match cs with
  | [] => true
  | c :: rest =>
      match c with
      | CallGet => true
      | CallReturn id => bool_decide (id ∈ m_used p)
      end
      && match step c p w with
         | Some (p', w') => contract_ok rest p' w'
         | None => true
         end
  end.

(** [n] calls of [Get] in a row; the pointers handed out, in order. *)
Fixpoint Get_n (n : nat) (p : CVideoBufferPoolDRMPRIME)
  : M (list Z * CVideoBufferPoolDRMPRIME) :=
  match n with
  | O => ret ([], p)
  | S n' =>
      r <- Get p ;;
      r' <- Get_n n' (snd r) ;;
      ret (fst r :: fst r', snd r')
  end.

(** The ids of the slots created so far. *)
Definition slot_ids (p : CVideoBufferPoolDRMPRIME) : list Z :=
  m_id <$> m_all p.

(** The state of a pool whose callers kept the contract: the ids of [m_used]
    and [m_free] together are exactly the positions of [m_all], each once, and
    every slot carries its position as id. *)
Record pool_inv (p : CVideoBufferPoolDRMPRIME) : Prop := mkPoolInv {
  inv_perm : m_used p ++ m_free p ≡ₚ seqZ 0 (Z.of_nat (length (m_all p)));
  inv_ids : slot_ids p = seqZ 0 (Z.of_nat (length (m_all p)))
}.

(** A property of slots holds of every slot named in [m_free]. *)
Definition free_all (P : CVideoBufferDRMPRIME -> Prop)
    (p : CVideoBufferPoolDRMPRIME) : Prop :=
  Forall (fun id => forall s, m_all p !! Z.to_nat id = Some s -> P s)
    (m_free p).

(** Every id in [m_free] has no holder. *)
Definition free_unheld (p : CVideoBufferPoolDRMPRIME) : Prop :=
  free_all (fun s => m_refCount s = 0) p.

(** Every id in [m_free] names an idle slot. *)
Definition free_idle (p : CVideoBufferPoolDRMPRIME) : Prop :=
  free_all idle p.

(** The pool has room for one more slot whose id is an [int]. *)
Definition fits_int (p : CVideoBufferPoolDRMPRIME) : Prop :=
  Z.of_nat (length (m_all p)) <= INT_MAX.

(** ** The decode session: [CDVDVideoCodecDRMPRIME::GetPicture] *)

(** The values of [CDVDVideoCodec::VCReturn] that [GetPicture] returns. *)
Inductive VCReturn : Type := VC_ERROR | VC_BUFFER | VC_PICTURE | VC_EOF.

Definition AVERROR_EAGAIN : Z := -11.
Definition AVERROR_EOF : Z := -541478725.

(** What the decoding engine answers during one call: whether hardware
    decoding is on, the result of [avcodec_receive_frame], the result of
    [av_hwframe_map], and the frame then found in the session's [m_pFrame]. *)
Record Engine : Type := mkEngine {
  HWAccelEnabled : bool;
  receive_ret : Z;
  map_ret : Z;
  decoded : AVFrame
}.

(** [GetPicture]: of the picture only the [videoBuffer] pointer is kept
    ([None] is nullptr); [SetPictureParams] fills the other fields from the
    frame and touches neither the buffer nor the pool, and [Drain] only talks
    to the engine. The buffer the picture arrives with is one of this pool. *)
Definition GetPicture (e : Engine) (videoBuffer : option Z)
    (pool : CVideoBufferPoolDRMPRIME)
  : M (VCReturn * option Z * CVideoBufferPoolDRMPRIME) :=
  if bool_decide (receive_ret e = AVERROR_EAGAIN) then
    ret (VC_BUFFER, videoBuffer, pool)
  else if bool_decide (receive_ret e = AVERROR_EOF) then
    ret (VC_EOF, videoBuffer, pool)
  else if bool_decide (receive_ret e <> 0) then
    ret (VC_ERROR, videoBuffer, pool)
  else if HWAccelEnabled e && bool_decide (map_ret e <> 0) then
    ret (VC_ERROR, videoBuffer, pool)
  else
    pool1 <- match videoBuffer with
             | Some old => Release old pool
             | None => ret pool
             end ;;
    r <- Get pool1 ;;
    s <- vector_at (m_all (snd r)) (fst r) ;;
    r' <- SetRef s (decoded e) ;;
    ret (VC_PICTURE, Some (fst r), store (snd r) (fst r) (fst r')).

(** Every slot of the pool got its frame holder. *)
Definition slots_allocated (p : CVideoBufferPoolDRMPRIME) : Prop :=
  Forall (fun s => is_Some (m_pFrame s)) (m_all p).

(** The engine delivered a frame: [avcodec_receive_frame] returned 0 and,
    with hardware decoding, so did [av_hwframe_map]. *)
Definition engine_ok (e : Engine) : Prop :=
  receive_ret e = 0 /\ (HWAccelEnabled e = false \/ map_ret e = 0).

(** The picture passed in holds no buffer, or one of this pool that is in
    use. *)
Definition held_buffer (videoBuffer : option Z)
    (p : CVideoBufferPoolDRMPRIME) : Prop :=
  match videoBuffer with
  | Some old => old ∈ m_used p
  | None => True
  end.

(** ** Sample worlds and slots *)

(** Every kernel call succeeds and memory is never short. *)
Definition quiet_world : World := mkWorld [] (fun _ _ => 0) (fun _ => true).

(** Every kernel call fails and [av_frame_alloc] finds no memory. *)
Definition failing_world : World := mkWorld [] (fun _ _ => -1) (fun _ => false).

(** A slot in use: frame buffer 7 registered on descriptor 5, planes 0 and 2
    imported as handles 3 and 4, frame data 1, one holder. *)
Definition live_slot : CVideoBufferDRMPRIME :=
  mkBuffer 0 1 5 7 [3; 0; 4; 0] (Some (FrameData 1)).

(** A freshly created slot with its frame holder. *)
Definition blank_slot (id : Z) : CVideoBufferDRMPRIME :=
  CVideoBuffer_init id (Some FrameEmpty).

(** ** Destruction *)

(** [av_frame_free(&frame)]: a NULL frame is left alone; otherwise the frame
    is unreferenced, its holder freed, and the pointer set to NULL. *)
Definition av_frame_free (frame : option AVFrame) : M (option AVFrame) :=
  av_frame_unref frame ;;; ret None.

(** The destructor of a slot: [Unref()], then [av_frame_free(&m_pFrame)].
    Nothing is left of the object. *)
Definition delete_CVideoBufferDRMPRIME (s : CVideoBufferDRMPRIME) : M unit :=
  s' <- Unref s ;;
  av_frame_free (m_pFrame s') ;;;
  ret tt.

(** The destructor of the pool: [delete buf] for every [buf] of [m_all], in
    the order of the table. *)
Fixpoint delete_all (bufs : list CVideoBufferDRMPRIME) : M unit :=
  match bufs with
  | [] => ret tt
  | buf :: rest => delete_CVideoBufferDRMPRIME buf ;;; delete_all rest
  end.

Definition delete_CVideoBufferPoolDRMPRIME (p : CVideoBufferPoolDRMPRIME)
  : M unit :=
  delete_all (m_all p).

(** ** Usage of the pool over a sequence of calls *)

(** The largest number of ids in [m_used] at any moment of a sequence of
    calls, the start included. *)
Fixpoint peak_used (cs : list Call) (p : CVideoBufferPoolDRMPRIME)
    (w : World) : nat :=
  match cs with
  | [] => length (m_used p)
  | c :: rest =>
      match step c p w with
      | Some (p', w') => Nat.max (length (m_used p)) (peak_used rest p' w')
      | None => length (m_used p)
      end
  end.

(** ** Choice of the decoder: [CDVDVideoCodecDRMPRIME::FindDecoder] *)

Module Codec.

(** The device types and pixel formats of libavutil that the code names; the
    others are numbered. *)
Inductive AVHWDeviceType : Type :=
| AV_HWDEVICE_TYPE_NONE
| AV_HWDEVICE_TYPE_VAAPI
| AV_HWDEVICE_TYPE_DRM
| AV_HWDEVICE_TYPE_other (n : nat).

Global Instance AVHWDeviceType_eq_dec : EqDecision AVHWDeviceType.
Proof. solve_decision. Defined.

Inductive AVPixelFormat : Type :=
| AV_PIX_FMT_DRM_PRIME
| AV_PIX_FMT_VAAPI
| AV_PIX_FMT_NV12
| AV_PIX_FMT_other (n : nat).

Global Instance AVPixelFormat_eq_dec : EqDecision AVPixelFormat.
Proof. solve_decision. Defined.

Definition AV_CODEC_HW_CONFIG_METHOD_HW_DEVICE_CTX : Z := 1.
Definition AV_CODEC_HW_CONFIG_METHOD_HW_FRAMES_CTX : Z := 2.

Record AVCodecHWConfig : Type := mkHWConfig {
  device_type : AVHWDeviceType;
  methods : Z
}.

(** What [FindDecoder] reads of an [AVCodec]: [pix_fmts] is a pointer ([None]
    is NULL) to the formats that precede the terminating AV_PIX_FMT_NONE;
    [hw_configs] is what [avcodec_get_hw_config] enumerates. *)
Record AVCodec : Type := mkCodec {
  is_decoder : bool;
  codec_id : Z;
  pix_fmts : option (list AVPixelFormat);
  hw_configs : list AVCodecHWConfig
}.

(** The local table of [FindDecoder], without its terminating
    AV_HWDEVICE_TYPE_NONE. *)
Definition DRMPrimeDeviceTypes : list AVHWDeviceType :=
  [AV_HWDEVICE_TYPE_VAAPI].

(** The scan of [pix_fmts] up to the terminator. *)
Fixpoint has_drm_prime (fmts : list AVPixelFormat) : bool :=
  match fmts with
  | [] => false
  | fmt :: rest =>
      if bool_decide (fmt = AV_PIX_FMT_DRM_PRIME) then true
      else has_drm_prime rest
  end.

(** The inner loop over [DRMPrimeDeviceTypes]: it starts again at [j = 0]
    and leaves in [j] the index of the match, or the length of the table. *)
Fixpoint scan_types (types : list AVHWDeviceType) (dt : AVHWDeviceType)
    (j : nat) : bool * nat :=
  match types with
  | [] => (false, j)
  | t :: rest =>
      if bool_decide (dt = t) then (true, j) else scan_types rest dt (S j)
  end.

(** [methods & HW_DEVICE_CTX && methods & HW_FRAMES_CTX]. *)
Definition methods_ok (m : Z) : bool :=
  negb (Z.land m AV_CODEC_HW_CONFIG_METHOD_HW_DEVICE_CTX =? 0)
  && negb (Z.land m AV_CODEC_HW_CONFIG_METHOD_HW_FRAMES_CTX =? 0).

(** The loop [for (j = 0;; j++)] over the hardware configurations of one
    codec, entered with the index [j]. The inner loop writes the same [j], so
    the next index is one more than what the inner loop left. The loop need
    not end: [fuel] bounds the iterations, and [None] says that they were not
    enough. [Some None] is the [break], [Some (Some t)] the [return] with
    [m_HWDeviceType = t], read from the table at the index of the match
    (an index inside the table). *)
Fixpoint config_loop (fuel : nat) (configs : list AVCodecHWConfig) (j : nat)
  : option (option AVHWDeviceType) :=
  match fuel with
  | O => None
  | S fuel' =>
      match configs !! j with
      | None => Some None
      | Some config =>
          let r := scan_types DRMPrimeDeviceTypes (device_type config) 0 in
          if negb (fst r) then config_loop fuel' configs (S (snd r))
          else if methods_ok (methods config) then
            match DRMPrimeDeviceTypes !! snd r with
            | Some t => Some (Some t)
            | None => None
            end
          else config_loop fuel' configs (S (snd r))
      end
  end.

(** [FindDecoder(hints)] over the codecs that [av_codec_iterate] lists, with
    [hint] for [hints.codec] and [hw] for [m_HWDeviceType] on entry. The
    result is the codec returned ([None] is nullptr) and [m_HWDeviceType]
    afterwards; no result when a loop over configurations does not end
    within [fuel] iterations. *)
Fixpoint FindDecoder (fuel : nat) (codecs : list AVCodec) (hint : Z)
    (hw : AVHWDeviceType) : option (option AVCodec * AVHWDeviceType) :=
  match codecs with
  | [] => Some (None, hw)
  | codec :: rest =>
      if is_decoder codec && bool_decide (codec_id codec = hint) then
        match pix_fmts codec with
        | Some fmts =>
            if has_drm_prime fmts then Some (Some codec, hw)
            else FindDecoder fuel rest hint hw
        | None =>
            match config_loop fuel (hw_configs codec) 0 with
            | None => None
            | Some (Some t) => Some (Some codec, t)
            | Some None => FindDecoder fuel rest hint hw
            end
        end
      else FindDecoder fuel rest hint hw
  end.

(** [HWAccelEnabled()]. *)
Definition HWAccelEnabled (hw : AVHWDeviceType) : bool :=
  negb (bool_decide (hw = AV_HWDEVICE_TYPE_NONE)).

End Codec.

(** * Properties *)

(** Side conditions on concrete pools: a [Forall] over a literal list, whose
    entries are looked up by evaluation. *)
Ltac concrete_slots :=
  repeat first
    [ apply Forall_nil_2
    | apply Forall_cons_2
    | progress (intros ? [= <-])
    | by eexists
    | reflexivity
    | by (unfold idle; vm_compute; repeat constructor) ].

(** ** The trace *)

Lemma log_nil w : log [] w = w.
Proof. destruct w. unfold log. simpl. by rewrite app_nil_r. Qed.

Lemma log_log a b w : log b (log a w) = log (a ++ b) w.
Proof. unfold log. simpl. by rewrite app_assoc. Qed.

Lemma bind_Some {A B} (m : M A) (k : A -> M B) w a w' :
  m w = Some (a, w') -> bind m k w = k a w'.
Proof. unfold bind. by intros ->. Qed.

Lemma to_int_small z : 0 <= z <= INT_MAX -> to_int z = z.
Proof.
  unfold to_int, INT_MAX. intros Hz.
  rewrite Z.mod_small; lia.
Qed.

Lemma vector_at_Some {A} (v : list A) (i : Z) a w :
  0 <= i -> v !! Z.to_nat i = Some a -> vector_at v i w = Some (a, w).
Proof.
  intros Hi Ha. unfold vector_at.
  apply lookup_lt_Some in Ha as Hlt.
  rewrite bool_decide_eq_true_2 by lia.
  by rewrite Ha.
Qed.

Lemma vector_at_inv {A} (v : list A) (i : Z) r w :
  vector_at v i w = Some r ->
  0 <= i < Z.of_nat (length v) /\ v !! Z.to_nat i = Some (fst r) /\ snd r = w.
Proof.
  unfold vector_at. case_bool_decide as Hi; [|done].
  destruct (v !! Z.to_nat i) as [a|] eqn:Ha; [|done].
  unfold ret. intros [= <-]. done.
Qed.

(** ** The slot *)

Lemma close_handles_spec fd hs w :
  close_handles fd hs w
  = Some (replicate (length hs) 0, log (handle_events fd hs) w).
Proof.
  revert w. induction hs as [|h rest IH]; intros w.
  - simpl. unfold ret, handle_events. simpl. by rewrite log_nil.
  - simpl. unfold handle_events. rewrite filter_cons.
    case_bool_decide as Hh.
    + rewrite decide_False by lia.
      unfold bind at 1. unfold ret at 1. rewrite (bind_Some _ _ _ _ _ (IH w)).
      unfold ret. by subst h.
    + rewrite decide_True by done.
      unfold bind at 1. unfold bind at 1.
      unfold drmIoctl_GEM_CLOSE, kernel_call. unfold ret at 1.
      rewrite (bind_Some _ _ _ _ _ (IH _)). unfold ret.
      rewrite log_log. done.
Qed.

Lemma Unref_spec s w :
  Unref s w = Some (Unref_slot s, log (Unref_events s) w).
Proof.
  unfold Unref, Unref_events, Unref_slot, fb_events, frame_events, frame_of.
  assert (Hfr : forall w0, av_frame_unref (m_pFrame s) w0
     = Some (match m_pFrame s with Some _ => Some FrameEmpty | None => None end,
             log (match match m_pFrame s with Some f => f | None => FrameEmpty end with
                  | FrameEmpty => []
                  | FrameData d => [EvFrameDrop d]
                  end) w0)).
  { intros w0. destruct (m_pFrame s) as [[|d]|]; simpl; unfold ret;
      by rewrite ?log_nil. }
  case_bool_decide as Hfb.
  - unfold bind at 1. unfold ret at 1.
    rewrite (bind_Some _ _ _ _ _ (close_handles_spec _ _ _)).
    rewrite (bind_Some _ _ _ _ _ (Hfr _)). unfold ret.
    rewrite log_log. simpl. by rewrite Hfb.
  - unfold bind at 1. unfold bind at 1. unfold drmModeRmFB, kernel_call.
    unfold ret at 1.
    rewrite (bind_Some _ _ _ _ _ (close_handles_spec _ _ _)).
    rewrite (bind_Some _ _ _ _ _ (Hfr _)). unfold ret.
    by rewrite !log_log.
Qed.

Lemma Unref_slot_idle s : idle (Unref_slot s).
Proof.
  unfold idle, Unref_slot, frame_of. simpl. split; [done|]. split.
  - apply Forall_replicate. done.
  - by destruct (m_pFrame s).
Qed.

Lemma handle_events_zero fd hs :
  Forall (fun h => h = 0) hs -> handle_events fd hs = [].
Proof.
  unfold handle_events. induction 1 as [|h rest Hh _ IH]; [done|].
  rewrite filter_cons, decide_False by lia. done.
Qed.

Lemma idle_Unref_events s : idle s -> Unref_events s = [].
Proof.
  intros (Hfb & Hhs & Hfr). unfold Unref_events, fb_events, frame_events.
  rewrite bool_decide_eq_true_2 by done.
  rewrite handle_events_zero by done. by rewrite Hfr.
Qed.

Lemma idle_Unref_slot s : idle s -> Unref_slot s = s.
Proof.
  intros (Hfb & Hhs & Hfr). destruct s as [i r fd fb hs fr].
  unfold Unref_slot, frame_of in *. simpl in *. subst fb. f_equal.
  - clear Hfr. induction Hhs as [|h rest Hh _ IH]; simpl; [done|].
    by rewrite IH, Hh.
  - destruct fr as [f|]; [|done]. by subst f.
Qed.

(** ** The pool, one call at a time *)

Lemma Get_recycle p idx rest s w :
  m_free p = idx :: rest -> 0 <= idx -> m_all p !! Z.to_nat idx = Some s ->
  Get p w
  = Some ((idx, mkPool (<[Z.to_nat idx := Acquire s]> (m_all p))
                  (m_used p ++ [idx]) rest), w).
Proof.
  intros Hfree Hidx Hs. unfold Get. rewrite Hfree. simpl.
  by rewrite (bind_Some _ _ _ _ _ (vector_at_Some _ _ _ _ Hidx Hs)).
Qed.

Lemma Get_new p w :
  m_free p = [] ->
  Get p w
  = Some ((Z.of_nat (length (m_all p)),
           mkPool (m_all p
                   ++ [Acquire (CVideoBuffer_init
                                  (to_int (Z.of_nat (length (m_all p))))
                                  (if w_heap w (w_trace w) then Some FrameEmpty
                                   else None))])
             (m_used p ++ [to_int (Z.of_nat (length (m_all p)))]) []),
          log [EvFrameAlloc] w).
Proof. intros Hfree. unfold Get. by rewrite Hfree. Qed.

Lemma Return_at p id s w :
  0 <= id -> m_all p !! Z.to_nat id = Some s ->
  Return id p w
  = Some (mkPool (<[Z.to_nat id := Unref_slot s]> (m_all p))
            (erase_first id (m_used p)) (m_free p ++ [id]),
          log (Unref_events s) w).
Proof.
  intros Hid Hs. unfold Return.
  rewrite (bind_Some _ _ _ _ _ (vector_at_Some _ _ _ _ Hid Hs)).
  by rewrite (bind_Some _ _ _ _ _ (Unref_spec _ _)).
Qed.

Lemma erase_first_perm id l : id ∈ l -> l ≡ₚ id :: erase_first id l.
Proof.
  induction l as [|x rest IH]; intros Hin.
  - by apply elem_of_nil in Hin.
  - simpl. case_bool_decide as Hx.
    + by subst x.
    + apply elem_of_cons in Hin as [->|Hin]; [done|].
      rewrite (IH Hin) at 1. apply Permutation_swap.
Qed.

Lemma erase_first_absent id l : id ∉ l -> erase_first id l = l.
Proof.
  induction l as [|x rest IH]; intros Hin; [done|].
  apply not_elem_of_cons in Hin as [Hne Hin]. simpl.
  rewrite bool_decide_eq_false_2 by done. by rewrite IH.
Qed.

Lemma slot_ids_lookup p i s :
  slot_ids p = seqZ 0 (Z.of_nat (length (m_all p))) ->
  m_all p !! i = Some s -> m_id s = Z.of_nat i.
Proof.
  intros Hids Hs.
  assert (slot_ids p !! i = Some (m_id s)) as Hl.
  { unfold slot_ids. by rewrite list_lookup_fmap, Hs. }
  rewrite Hids in Hl. apply lookup_seqZ in Hl. lia.
Qed.

Lemma slot_ids_insert p i s s' :
  m_all p !! i = Some s -> m_id s' = m_id s ->
  m_id <$> <[i := s']> (m_all p) = slot_ids p.
Proof.
  intros Hs Hid. unfold slot_ids. rewrite list_fmap_insert.
  apply list_insert_id. by rewrite list_lookup_fmap, Hs, Hid.
Qed.

Section Invariant.
Context (p : CVideoBufferPoolDRMPRIME) (Hinv : pool_inv p).

Lemma inv_in_range id :
  id ∈ m_used p ++ m_free p -> 0 <= id < Z.of_nat (length (m_all p)).
Proof.
  intros Hin. rewrite (inv_perm p Hinv) in Hin.
  apply elem_of_seqZ in Hin. lia.
Qed.

Lemma inv_lookup id :
  id ∈ m_used p ++ m_free p ->
  0 <= id /\ exists s, m_all p !! Z.to_nat id = Some s /\ m_id s = id.
Proof.
  intros Hin. apply inv_in_range in Hin. split; [lia|].
  destruct (lookup_lt_is_Some_2 (m_all p) (Z.to_nat id)) as [s Hs]; [lia|].
  exists s. split; [done|].
  rewrite (slot_ids_lookup p _ _ (inv_ids p Hinv) Hs). lia.
Qed.

Lemma inv_NoDup : NoDup (m_used p ++ m_free p).
Proof. rewrite (inv_perm p Hinv). apply NoDup_seqZ. Qed.

Lemma inv_disjoint id : id ∈ m_used p -> id ∉ m_free p.
Proof.
  intros Hu Hf. pose proof inv_NoDup as Hnd.
  apply NoDup_app in Hnd as (_ & Hdis & _). by apply (Hdis id).
Qed.

Lemma inv_union id : id ∈ m_used p \/ id ∈ m_free p <-> id ∈ slot_ids p.
Proof.
  rewrite <- elem_of_app, (inv_perm p Hinv), (inv_ids p Hinv). done.
Qed.

Lemma Get_recycle_inv idx rest w :
  m_free p = idx :: rest ->
  exists s,
    m_all p !! Z.to_nat idx = Some s /\ m_id s = idx /\ 0 <= idx
    /\ Get p w
       = Some ((idx, mkPool (<[Z.to_nat idx := Acquire s]> (m_all p))
                       (m_used p ++ [idx]) rest), w)
    /\ pool_inv (mkPool (<[Z.to_nat idx := Acquire s]> (m_all p))
                   (m_used p ++ [idx]) rest).
Proof.
  intros Hfree. destruct (inv_lookup idx) as (Hidx & s & Hs & Hid).
  { rewrite Hfree. apply elem_of_app. right. apply elem_of_cons. by left. }
  exists s. split; [done|]. split; [done|]. split; [done|].
  split; [by eapply Get_recycle|].
  split; simpl.
  + rewrite length_insert, <- app_assoc. simpl.
    rewrite <- Hfree. apply (inv_perm p Hinv).
  + unfold slot_ids at 1. simpl. rewrite length_insert.
    rewrite (slot_ids_insert p _ s) by done. apply (inv_ids p Hinv).
Qed.

Lemma Get_preserves w :
  fits_int p ->
  exists ptr p' w',
    Get p w = Some ((ptr, p'), w') /\ pool_inv p'
    /\ (length (m_all p') <= S (length (m_all p)))%nat.
Proof.
  intros Hfit. destruct (m_free p) as [|idx rest] eqn:Hfree.
  - eexists _, _, _. split; [by apply Get_new|]. simpl.
    rewrite to_int_small by (unfold fits_int in Hfit; lia).
    split; [|rewrite length_app; simpl; lia].
    pose proof (inv_perm p Hinv) as Hperm. rewrite Hfree in Hperm.
    split; simpl.
    + rewrite length_app. simpl. rewrite Nat.add_1_r, seqZ_S.
      rewrite !app_nil_r in *. by rewrite Hperm.
    + unfold slot_ids. simpl. rewrite fmap_app, length_app. simpl.
      rewrite Nat.add_1_r, seqZ_S. f_equal. apply (inv_ids p Hinv).
  - destruct (Get_recycle_inv idx rest w Hfree)
      as (s & Hs & Hid & Hidx & HG & Hinv').
    eexists _, _, _. split; [exact HG|]. split; [exact Hinv'|].
    simpl. rewrite length_insert. lia.
Qed.

Lemma Return_preserves id w :
  id ∈ m_used p ->
  exists p' w',
    Return id p w = Some (p', w') /\ pool_inv p'
    /\ length (m_all p') = length (m_all p).
Proof.
  intros Hin. destruct (inv_lookup id) as (Hid & s & Hs & Hsid).
  { apply elem_of_app. by left. }
  eexists _, _. split; [by eapply Return_at|]. simpl.
  split; [|by rewrite length_insert].
  split; simpl.
  + rewrite length_insert. rewrite <- (inv_perm p Hinv).
    rewrite (erase_first_perm id (m_used p) Hin) at 2.
    rewrite app_assoc. rewrite <- Permutation_cons_append. done.
  + unfold slot_ids at 1. simpl. rewrite length_insert.
    rewrite (slot_ids_insert p _ s) by done. apply (inv_ids p Hinv).
Qed.
End Invariant.

Lemma empty_pool_inv : pool_inv empty_pool.
Proof. split; done. Qed.

(** ** Teardown of a slot *)

(** C5. [Unref] is idempotent. On an idle slot it changes nothing and calls
    nothing. On any slot, the first call makes the calls listed by
    [Unref_events]; a second call right after it makes none and changes
    nothing; and the kernel release calls among [Unref_events] are one
    [drmModeRmFB] for a registered frame buffer and one GEM close for each
    plane whose handle is held, nothing else. *)
Theorem Unref_idempotent (s : CVideoBufferDRMPRIME) (w : World) :
  (idle s -> Unref s w = Some (s, w))
  /\ (exists s1 w1,
        Unref s w = Some (s1, w1)
        /\ w1 = log (Unref_events s) w
        /\ Unref s1 w1 = Some (s1, w1))
  /\ filter (fun e => is_kernel_release e = true) (Unref_events s)
     = fb_events s ++ handle_events (m_drm_fd s) (m_handles s).
Proof.
  split; [|split].
  - intros Hidle. rewrite Unref_spec.
    by rewrite (idle_Unref_events s Hidle), (idle_Unref_slot s Hidle), log_nil.
  - exists (Unref_slot s), (log (Unref_events s) w).
    split; [apply Unref_spec|]. split; [done|].
    pose proof (Unref_slot_idle s) as Hidle. rewrite Unref_spec.
    by rewrite (idle_Unref_events _ Hidle), (idle_Unref_slot _ Hidle), log_nil.
  - unfold Unref_events. rewrite !filter_app.
    assert (filter (fun e => is_kernel_release e = true) (fb_events s)
            = fb_events s) as ->.
    { unfold fb_events. by case_bool_decide. }
    assert (filter (fun e => is_kernel_release e = true) (frame_events s)
            = []) as ->.
    { unfold frame_events. by destruct (frame_of s). }
    rewrite app_nil_r. f_equal. unfold handle_events.
    induction (filter (fun h => h <> 0) (m_handles s)) as [|h l IH]; [done|].
    rewrite fmap_cons, filter_cons. simpl. by rewrite IH.
Qed.

(** C6. Teardown order and failures. Whatever the kernel answers to each
    call, [Unref] first removes the frame buffer (if one is registered), then
    closes every held handle in ascending plane order, then drops the frame
    data; and the slot it leaves is idle. *)
Theorem Unref_order_despite_failures (s : CVideoBufferDRMPRIME)
    (tr : list Event) (kernel : list Event -> Event -> Z)
    (heap : list Event -> bool) :
  Unref s (mkWorld tr kernel heap)
  = Some (Unref_slot s,
          mkWorld (tr ++ fb_events s
                      ++ handle_events (m_drm_fd s) (m_handles s)
                      ++ frame_events s) kernel heap)
  /\ idle (Unref_slot s).
Proof.
  split; [|apply Unref_slot_idle].
  rewrite Unref_spec. done.
Qed.

Lemma Unref_idempotent_witness :
  idle (blank_slot 0)
  /\ Unref (blank_slot 0) quiet_world = Some (blank_slot 0, quiet_world).
Proof.
  assert (idle (blank_slot 0)) as Hidle.
  { unfold idle. vm_compute. repeat constructor. }
  split; [exact Hidle|].
  exact (proj1 (Unref_idempotent (blank_slot 0) quiet_world) Hidle).
Defined.

(** The teardown of [live_slot] when every kernel call fails. *)
Example Unref_live_slot_failing_kernel :
  (fun r => (fst r, w_trace (snd r))) <$> Unref live_slot failing_world
  = Some (mkBuffer 0 1 5 0 [0; 0; 0; 0] (Some FrameEmpty),
          [EvRmFB 5 7; EvGemClose 5 3; EvGemClose 5 4; EvFrameDrop 1]).
Proof. reflexivity. Qed.

(** ** Sequences of calls *)

Lemma run_keeps_invariant (cs : list Call) :
  forall p w,
    pool_inv p ->
    Z.of_nat (length (m_all p)) + Z.of_nat (length cs) <= INT_MAX ->
    contract_ok cs p w = true ->
    forall n, exists p' w',
      run (take n cs) p w = Some (p', w') /\ pool_inv p'.
Proof.
  induction cs as [|c rest IH]; intros p w Hinv Hfit Hok n.
  - rewrite take_nil. by exists p, w.
  - destruct n as [|n]; [by exists p, w|].
    simpl in Hok. apply andb_prop in Hok as [Hc Hrest].
    simpl in Hfit.
    assert (exists p1 w1, step c p w = Some (p1, w1) /\ pool_inv p1
              /\ (length (m_all p1) <= S (length (m_all p)))%nat)
      as (p1 & w1 & Hstep & Hinv1 & Hlen).
    { destruct c as [|id]; simpl.
      - destruct (Get_preserves p Hinv w) as (ptr & p1 & w1 & HG & Hi & Hl).
        { unfold fits_int. lia. }
        exists p1, w1. by rewrite (bind_Some _ _ _ _ _ HG).
      - apply bool_decide_eq_true_1 in Hc.
        destruct (Return_preserves p Hinv id w Hc) as (p1 & w1 & HR & Hi & Hl).
        exists p1, w1. split; [done|]. split; [done|]. lia. }
    rewrite Hstep in Hrest.
    destruct (IH p1 w1 Hinv1 ltac:(lia) Hrest n) as (p' & w' & Hrun & Hinv').
    exists p', w'. split; [|done].
    simpl. by rewrite (bind_Some _ _ _ _ _ Hstep).
Qed.

(** With a double return, the same id ends up in [m_used] and in [m_free]:
    the slot 0 is handed out, returned twice, and handed out again. *)
Lemma double_Return_puts_id_in_used_and_free :
  exists p' w',
    run [CallGet; CallReturn 0; CallReturn 0; CallGet] empty_pool quiet_world
    = Some (p', w')
    /\ m_used p' = [0] /\ m_free p' = [0]
    /\ 0 ∈ m_used p' /\ 0 ∈ m_free p'.
Proof.
  eexists _, _. split; [vm_compute; reflexivity|]. simpl.
  repeat split; apply list_elem_of_here.
Qed.

(** C1, for callers that keep the contract. Start from the empty pool and
    make any sequence of [Get] and [Return] calls in which every [Return(id)]
    is made while [id] is in [m_used] (and which is short enough for the ids
    to be [int]s). Then every call is defined, and after every prefix of the
    sequence no id is both in [m_used] and in [m_free], and the ids in
    [m_used] or [m_free] are exactly the ids of the slots created so far. *)
Theorem used_free_partition (cs : list Call) (w : World) :
  Z.of_nat (length cs) <= INT_MAX ->
  contract_ok cs empty_pool w = true ->
  forall n, exists p' w',
    run (take n cs) empty_pool w = Some (p', w')
    /\ (forall id, id ∈ m_used p' -> id ∉ m_free p')
    /\ (forall id, id ∈ m_used p' \/ id ∈ m_free p' <-> id ∈ slot_ids p')
    /\ slot_ids p' = seqZ 0 (Z.of_nat (length (m_all p'))).
Proof.
  intros Hlen Hok n.
  destruct (run_keeps_invariant cs empty_pool w empty_pool_inv Hlen Hok n)
    as (p' & w' & Hrun & Hinv).
  exists p', w'. split; [done|]. split; [|split].
  - apply (inv_disjoint p' Hinv).
  - apply (inv_union p' Hinv).
  - apply (inv_ids p' Hinv).
Qed.

Lemma used_free_partition_witness :
  exists p' w',
    run (take 4 [CallGet; CallGet; CallReturn 0; CallGet]) empty_pool
      quiet_world = Some (p', w')
    /\ (forall id, id ∈ m_used p' -> id ∉ m_free p')
    /\ (forall id, id ∈ m_used p' \/ id ∈ m_free p' <-> id ∈ slot_ids p')
    /\ slot_ids p' = seqZ 0 (Z.of_nat (length (m_all p'))).
Proof.
  apply (used_free_partition [CallGet; CallGet; CallReturn 0; CallGet]
           quiet_world).
  - vm_compute. discriminate.
  - vm_compute. reflexivity.
Defined.

(** ** [Get] and [Return] on a pool in order *)

(** C2. On a pool whose [m_used] and [m_free] partition the slots, whose free
    slots have no holder, and with room for one more [int] id, [Get] returns
    a pointer to a slot with reference count 1 whose id is not in [m_free]
    afterwards. If [m_free] is [idx :: rest], the slot is the one with id
    [idx], [m_free] becomes [rest], [idx] is appended to [m_used] and no slot
    is created. If [m_free] is empty, the slot is new, its id is the number
    of slots so far, it is appended to [m_all] and its id to [m_used]. *)
Theorem Get_behaviour (p : CVideoBufferPoolDRMPRIME) (w : World) :
  pool_inv p -> free_unheld p -> fits_int p ->
  exists ptr s p' w',
    Get p w = Some ((ptr, p'), w')
    /\ 0 <= ptr /\ m_all p' !! Z.to_nat ptr = Some s
    /\ m_id s = ptr
    /\ m_refCount s = 1
    /\ (m_id s ∉ m_free p')
    /\ match m_free p with
       | idx :: rest =>
           ptr = idx
           /\ (exists s0, m_all p !! Z.to_nat idx = Some s0 /\ s = Acquire s0)
           /\ m_all p' = <[Z.to_nat idx := s]> (m_all p)
           /\ length (m_all p') = length (m_all p)
           /\ m_used p' = m_used p ++ [idx]
           /\ m_free p' = rest
       | [] =>
           ptr = Z.of_nat (length (m_all p))
           /\ m_all p' = m_all p ++ [s]
           /\ m_used p' = m_used p ++ [m_id s]
           /\ m_free p' = []
       end.
Proof.
  intros Hinv Hheld Hfit. destruct (m_free p) as [|idx rest] eqn:Hfree.
  - eexists _, _, _, _. split; [by apply Get_new|]. simpl.
    rewrite to_int_small by (unfold fits_int in Hfit; lia).
    split; [lia|]. rewrite Nat2Z.id.
    split; [by apply list_lookup_middle|].
    repeat split; try done. apply not_elem_of_nil.
  - destruct (inv_lookup p Hinv idx) as (Hidx & s0 & Hs0 & Hid).
    { rewrite Hfree. apply elem_of_app. right. apply list_elem_of_here. }
    eexists idx, (Acquire s0), _, _.
    split; [by eapply Get_recycle|]. simpl.
    split; [done|].
    split; [apply list_lookup_insert_eq; by eapply lookup_lt_Some|].
    split; [done|]. split.
    { unfold free_unheld, free_all in Hheld. rewrite Hfree in Hheld.
      apply Forall_cons_1 in Hheld as [Hc _]. rewrite (Hc s0 Hs0). done. }
    split.
    { pose proof (inv_NoDup p Hinv) as Hnd. rewrite Hfree in Hnd.
      apply NoDup_app in Hnd as (_ & _ & Hnd).
      apply NoDup_cons in Hnd as [Hni _]. by rewrite Hid. }
    repeat split; try done.
    + by exists s0.
    + by rewrite length_insert.
Qed.

Lemma Get_behaviour_witness :
  exists ptr s p' w',
    Get (mkPool [blank_slot 0; Acquire (blank_slot 1)] [1] [0]) quiet_world
    = Some ((ptr, p'), w')
    /\ ptr = 0 /\ m_refCount s = 1 /\ (m_id s ∉ m_free p')
    /\ m_all p' !! Z.to_nat ptr = Some s.
Proof.
  destruct (Get_behaviour
              (mkPool [blank_slot 0; Acquire (blank_slot 1)] [1] [0])
              quiet_world)
    as (ptr & s & p' & w' & HG & _ & Hs & _ & Hrc & Hnf & Hm).
  - split; [apply Permutation_swap | reflexivity].
  - apply Forall_cons. split; [|apply Forall_nil_2].
    intros s [= <-]. reflexivity.
  - unfold fits_int. vm_compute. discriminate.
  - exists ptr, s, p', w'. simpl in Hm. destruct Hm as (Hptr & _). done.
Defined.

Lemma erase_first_split id l :
  id ∈ l ->
  exists l1 l2, l = l1 ++ id :: l2 /\ (id ∉ l1) /\ erase_first id l = l1 ++ l2.
Proof.
  induction l as [|x rest IH]; intros Hin.
  - by apply elem_of_nil in Hin.
  - simpl. case_bool_decide as Hx.
    + subst x. exists [], rest. split; [done|]. split; [|done].
      apply not_elem_of_nil.
    + apply elem_of_cons in Hin as [->|Hin]; [done|].
      destruct (IH Hin) as (l1 & l2 & -> & Hni & ->).
      exists (x :: l1), l2. split; [done|]. split; [|done].
      apply not_elem_of_cons. split; [congruence|done].
Qed.

Lemma erase_first_NoDup id l : NoDup l -> id ∉ erase_first id l.
Proof.
  intros Hnd. destruct (decide (id ∈ l)) as [Hin|Hin].
  - rewrite (erase_first_perm id l Hin) in Hnd.
    by apply NoDup_cons in Hnd as [? _].
  - by rewrite erase_first_absent.
Qed.

Lemma free_all_Return (P : CVideoBufferDRMPRIME -> Prop) p id s :
  0 <= id -> m_all p !! Z.to_nat id = Some s -> P (Unref_slot s) ->
  free_all P p ->
  free_all P (mkPool (<[Z.to_nat id := Unref_slot s]> (m_all p))
                (erase_first id (m_used p)) (m_free p ++ [id])).
Proof.
  intros Hid Hs HP Hall. unfold free_all in *. simpl.
  apply lookup_lt_Some in Hs as Hlt.
  apply Forall_app. split.
  - eapply Forall_impl; [exact Hall|]. simpl. intros j Hj t Ht.
    destruct (decide (Z.to_nat id = Z.to_nat j)) as [Heq|Hne].
    + rewrite <- Heq, list_lookup_insert_eq in Ht by done.
      by injection Ht as <-.
    + rewrite list_lookup_insert_ne in Ht by done. by apply Hj.
  - apply Forall_singleton. intros t Ht.
    rewrite list_lookup_insert_eq in Ht by done.
    by injection Ht as <-.
Qed.

(** C3. [Return(id)] for an id in [m_used], on a pool whose [m_used] and
    [m_free] partition the slots: the slot's frame buffer and handles are
    released and its frame data dropped (the calls of [Unref_events], all made
    within the call), the slot is left idle, [id] is gone from [m_used] and
    sits at the back of [m_free]. Nothing else moves: [m_used] loses the one
    entry [id] and keeps every other entry in place and in order, and every
    other slot of [m_all] is as it was. The state in which [id] first shows
    in [m_free] already has the idle slot; and if the slots in [m_free] were
    idle before, they all are afterwards, so whatever [Get] takes from
    [m_free] next is idle. *)
Theorem Return_behaviour (p : CVideoBufferPoolDRMPRIME) (id : Z) (w : World) :
  pool_inv p -> id ∈ m_used p ->
  exists s p',
    m_all p !! Z.to_nat id = Some s
    /\ Return id p w = Some (p', log (Unref_events s) w)
    /\ m_all p' = <[Z.to_nat id := Unref_slot s]> (m_all p)
    /\ m_all p' !! Z.to_nat id = Some (Unref_slot s)
    /\ idle (Unref_slot s)
    /\ m_used p' = erase_first id (m_used p)
    /\ (id ∉ m_used p')
    /\ m_free p' = m_free p ++ [id]
    /\ (free_idle p -> free_idle p')
    /\ (exists l1 l2,
          m_used p = l1 ++ id :: l2 /\ m_used p' = l1 ++ l2
          /\ (id ∉ l1) /\ (id ∉ l2))
    /\ (forall j, j ∈ m_used p' <-> j ∈ m_used p /\ j <> id)
    /\ (forall i, i <> Z.to_nat id -> m_all p' !! i = m_all p !! i)
    /\ length (m_all p') = length (m_all p)
    /\ m_fb_id (Unref_slot s) = 0
    /\ Forall (fun h => h = 0) (m_handles (Unref_slot s))
    /\ frame_of (Unref_slot s) = FrameEmpty.
Proof.
  intros Hinv Hin.
  destruct (inv_lookup p Hinv id) as (Hid & s & Hs & Hsid).
  { apply elem_of_app. by left. }
  assert (NoDup (m_used p)) as Hnd.
  { pose proof (inv_NoDup p Hinv) as Hnd. by apply NoDup_app in Hnd as (? & _). }
  destruct (erase_first_split id (m_used p) Hin) as (l1 & l2 & Hl & Hni1 & He).
  assert (id ∉ l2) as Hni2.
  { rewrite Hl in Hnd. apply NoDup_app in Hnd as (_ & _ & Hnd).
    by apply NoDup_cons in Hnd as [? _]. }
  eexists s, _. split; [done|]. split; [by apply Return_at|]. simpl.
  split; [done|].
  split; [apply list_lookup_insert_eq; by eapply lookup_lt_Some|].
  split; [apply Unref_slot_idle|]. split; [done|].
  split; [by apply erase_first_NoDup|].
  split; [done|].
  split; [apply free_all_Return; [done|done|apply Unref_slot_idle]|].
  split; [by exists l1, l2|].
  split.
  { intros j. rewrite He, Hl, !elem_of_app, elem_of_cons. split.
    - intros [Hj|Hj]; (split; [tauto|]); intros ->; done.
    - intros [[Hj|[Hj|Hj]] Hne]; tauto. }
  split; [intros i Hi; by apply list_lookup_insert_ne|].
  split; [by rewrite length_insert|].
  apply Unref_slot_idle.
Qed.

Lemma Return_behaviour_witness :
  exists s p',
    [live_slot; Acquire (blank_slot 1); Acquire (blank_slot 2)] !! Z.to_nat 0
    = Some s
    /\ Return 0
         (mkPool [live_slot; Acquire (blank_slot 1); Acquire (blank_slot 2)]
            [2; 0; 1] []) quiet_world
       = Some (p', log (Unref_events s) quiet_world)
    /\ m_all p'
       = <[Z.to_nat 0 := Unref_slot s]>
           [live_slot; Acquire (blank_slot 1); Acquire (blank_slot 2)]
    /\ m_all p' !! Z.to_nat 0 = Some (Unref_slot s)
    /\ idle (Unref_slot s)
    /\ m_used p' = erase_first 0 [2; 0; 1]
    /\ (0 ∉ m_used p')
    /\ m_free p' = [] ++ [0]
    /\ (free_idle
          (mkPool [live_slot; Acquire (blank_slot 1); Acquire (blank_slot 2)]
             [2; 0; 1] []) -> free_idle p')
    /\ (exists l1 l2,
          [2; 0; 1] = l1 ++ 0 :: l2 /\ m_used p' = l1 ++ l2
          /\ (0 ∉ l1) /\ (0 ∉ l2))
    /\ (forall j, j ∈ m_used p' <-> j ∈ [2; 0; 1] /\ j <> 0)
    /\ (forall i, i <> Z.to_nat 0 ->
          m_all p' !! i
          = [live_slot; Acquire (blank_slot 1); Acquire (blank_slot 2)] !! i)
    /\ length (m_all p') = 3%nat
    /\ m_fb_id (Unref_slot s) = 0
    /\ Forall (fun h => h = 0) (m_handles (Unref_slot s))
    /\ frame_of (Unref_slot s) = FrameEmpty.
Proof.
  apply (Return_behaviour
           (mkPool [live_slot; Acquire (blank_slot 1); Acquire (blank_slot 2)]
              [2; 0; 1] []) 0 quiet_world).
  - split; [|reflexivity]. simpl.
    change (seqZ 0 (Z.of_nat 3)) with [0; 1; 2].
    etrans; [apply Permutation_swap|]. apply perm_skip, Permutation_swap.
  - apply list_elem_of_further, list_elem_of_here.
Defined.

(** What the call leaves in that pool: the slot that was live is idle, its
    three kernel resources and its frame data were released, and [m_used]
    lost the entry 0 only. *)
Example Return_live_slot_from_the_middle :
  (fun r => (m_all (fst r) !! 0%nat, m_used (fst r), m_free (fst r),
             w_trace (snd r)))
    <$> Return 0
          (mkPool [live_slot; Acquire (blank_slot 1); Acquire (blank_slot 2)]
             [2; 0; 1] []) quiet_world
  = Some (Some (mkBuffer 0 1 5 0 [0; 0; 0; 0] (Some FrameEmpty)),
          [2; 1], [0],
          [EvRmFB 5 7; EvGemClose 5 3; EvGemClose 5 4; EvFrameDrop 1]).
Proof. reflexivity. Qed.

(** ** Returning an id that is not in use *)

(** A second [Return(0)] after the first: nothing signals the mistake, the
    call completes, and [m_free] now lists slot 0 twice. *)
Lemma second_Return_is_silent :
  exists p w p' w',
    run [CallGet; CallReturn 0] empty_pool quiet_world = Some (p, w)
    /\ m_used p = [] /\ m_free p = [0]
    /\ (0 ∉ m_used p)
    /\ Return 0 p w = Some (p', w')
    /\ w_trace w' = w_trace w
    /\ m_used p' = [] /\ m_free p' = [0; 0]
    /\ m_free p' <> m_free p.
Proof.
  eexists _, _, _, _. split; [vm_compute; reflexivity|]. simpl.
  repeat split; try done. apply not_elem_of_nil.
Qed.

(** C8, as the code has it. [Return(id)] has no result and checks nothing.
    For an id that is not in [m_used] but names a slot, the call completes
    like any other: the slot is torn down, [m_used] is left as it is and [id]
    is pushed at the back of [m_free]. For an id that names no slot the
    access [m_all[id]] is out of bounds and the call has no defined
    outcome. *)
Theorem Return_unused_id_unchecked (p : CVideoBufferPoolDRMPRIME) (id : Z)
    (w : World) :
  (forall s,
     id ∉ m_used p -> 0 <= id -> m_all p !! Z.to_nat id = Some s ->
     Return id p w
     = Some (mkPool (<[Z.to_nat id := Unref_slot s]> (m_all p)) (m_used p)
               (m_free p ++ [id]),
             log (Unref_events s) w))
  /\ (~ 0 <= id < Z.of_nat (length (m_all p)) -> Return id p w = None).
Proof.
  split.
  - intros s Hni Hid Hs. rewrite (Return_at p id s w Hid Hs).
    by rewrite erase_first_absent.
  - intros Hout. unfold Return, bind, vector_at.
    by rewrite bool_decide_eq_false_2.
Qed.

Lemma Return_unused_id_unchecked_witness :
  Return 0 (mkPool [blank_slot 0] [] [0]) quiet_world
  = Some (mkPool (<[Z.to_nat 0 := Unref_slot (blank_slot 0)]> [blank_slot 0])
            [] ([0] ++ [0]),
          log (Unref_events (blank_slot 0)) quiet_world)
  /\ Return 1 (mkPool [blank_slot 0] [] [0]) quiet_world = None.
Proof.
  split.
  - apply (proj1 (Return_unused_id_unchecked (mkPool [blank_slot 0] [] [0]) 0
                    quiet_world) (blank_slot 0)).
    + apply not_elem_of_nil.
    + done.
    + reflexivity.
  - apply (proj2 (Return_unused_id_unchecked (mkPool [blank_slot 0] [] [0]) 1
                    quiet_world)).
    simpl. lia.
Defined.

(** ** Order of reuse *)

(** C10. The free list is a queue. [Return(id)] puts [id] at the back of
    [m_free]; [Get] takes the id at the front of [m_free] and leaves the rest
    in order. So with nothing free, after [Return(a)] and then [Return(b)],
    [Get] hands out [a], the slot freed first, and [b] stays free. *)
Theorem free_list_is_fifo (p : CVideoBufferPoolDRMPRIME) (w : World) :
  (forall id s,
     0 <= id -> m_all p !! Z.to_nat id = Some s ->
     exists p' w', Return id p w = Some (p', w')
                   /\ m_free p' = m_free p ++ [id])
  /\ (forall idx rest s,
        m_free p = idx :: rest -> 0 <= idx ->
        m_all p !! Z.to_nat idx = Some s ->
        exists p' w', Get p w = Some ((idx, p'), w') /\ m_free p' = rest)
  /\ (forall a b,
        pool_inv p -> m_free p = [] -> a ∈ m_used p -> b ∈ m_used p ->
        a <> b ->
        exists p1 w1 p2 w2 p3 w3,
          Return a p w = Some (p1, w1)
          /\ Return b p1 w1 = Some (p2, w2)
          /\ m_free p2 = [a; b]
          /\ Get p2 w2 = Some ((a, p3), w3)
          /\ m_free p3 = [b]).
Proof.
  split; [|split].
  - intros id s Hid Hs. eexists _, _. split; [by apply Return_at|]. done.
  - intros idx rest s Hfree Hidx Hs. eexists _, _.
    split; [by eapply Get_recycle|]. done.
  - intros a b Hinv Hfree Ha Hb Hab.
    destruct (inv_lookup p Hinv a) as (Ha0 & sa & Hsa & _).
    { apply elem_of_app. by left. }
    destruct (inv_lookup p Hinv b) as (Hb0 & sb & Hsb & _).
    { apply elem_of_app. by left. }
    assert (Z.to_nat a <> Z.to_nat b) as Hne by lia.
    apply lookup_lt_Some in Hsa as Hla.
    eexists _, _, _, _, _, _.
    split; [by apply Return_at|].
    split.
    { apply Return_at; [done|]. simpl.
      rewrite list_lookup_insert_ne by done. exact Hsb. }
    simpl. rewrite Hfree. simpl. split; [done|].
    split.
    { eapply Get_recycle; simpl; [done|done|].
      rewrite list_lookup_insert_ne by done.
      by rewrite list_lookup_insert_eq. }
    done.
Qed.

Lemma free_list_is_fifo_witness :
  (exists p' w',
     Return 0 (mkPool [Acquire (blank_slot 0); blank_slot 1] [0] [1])
       quiet_world = Some (p', w')
     /\ m_free p' = [1] ++ [0])
  /\ (exists p' w',
        Get (mkPool [blank_slot 0; blank_slot 1] [] [1; 0]) quiet_world
        = Some ((1, p'), w')
        /\ m_free p' = [0])
  /\ (exists p1 w1 p2 w2 p3 w3,
        Return 1
          (mkPool [Acquire (blank_slot 0); Acquire (blank_slot 1)] [0; 1] [])
          quiet_world = Some (p1, w1)
        /\ Return 0 p1 w1 = Some (p2, w2)
        /\ m_free p2 = [1; 0]
        /\ Get p2 w2 = Some ((1, p3), w3)
        /\ m_free p3 = [0]).
Proof.
  split; [|split].
  - apply (proj1 (free_list_is_fifo
             (mkPool [Acquire (blank_slot 0); blank_slot 1] [0] [1])
             quiet_world) 0 (Acquire (blank_slot 0))).
    + lia.
    + reflexivity.
  - apply (proj1 (proj2 (free_list_is_fifo
             (mkPool [blank_slot 0; blank_slot 1] [] [1; 0]) quiet_world))
             1 [0] (blank_slot 1)).
    + reflexivity.
    + lia.
    + reflexivity.
  - apply (proj2 (proj2 (free_list_is_fifo
             (mkPool [Acquire (blank_slot 0); Acquire (blank_slot 1)]
                [0; 1] []) quiet_world)) 1 0).
    + split; reflexivity.
    + reflexivity.
    + apply list_elem_of_further, list_elem_of_here.
    + apply list_elem_of_here.
    + discriminate.
Defined.

(** ** Growth of the slot table *)

Lemma bind_inv {A B} (m : M A) (k : A -> M B) w r :
  bind m k w = Some r -> exists a w1, m w = Some (a, w1) /\ k a w1 = Some r.
Proof.
  unfold bind. destruct (m w) as [[a w1]|]; [|done]. intros Hk. by exists a, w1.
Qed.

Lemma Get_no_growth_when_free p w r p' w' :
  m_free p <> [] -> Get p w = Some ((r, p'), w') ->
  length (m_all p') = length (m_all p) /\ slot_ids p' = slot_ids p.
Proof.
  intros Hne HG. unfold Get in HG.
  destruct (m_free p) as [|idx rest]; [done|].
  apply bind_inv in HG as (s & w1 & Hat & Hret).
  apply vector_at_inv in Hat as (Hidx & Hs & _). simpl in Hs.
  unfold ret in Hret. injection Hret as <- <- <-. simpl.
  split; [by rewrite length_insert|].
  unfold slot_ids at 1. simpl. by apply (slot_ids_insert p _ s).
Qed.

Lemma step_slot_ids c p w p' w' :
  step c p w = Some (p', w') -> slot_ids p `prefix_of` slot_ids p'.
Proof.
  destruct c as [|id]; simpl; intros Hstep.
  - apply bind_inv in Hstep as ([r p1] & w1 & HG & Hret).
    unfold ret in Hret. simpl in Hret. injection Hret as <- <-.
    destruct (m_free p) as [|idx rest] eqn:Hfree.
    + rewrite (Get_new p w Hfree) in HG. injection HG as <- <- <-.
      unfold slot_ids. simpl. rewrite fmap_app. by eexists.
    + apply Get_no_growth_when_free in HG as [_ ->]; [done|].
      by rewrite Hfree.
  - unfold Return in Hstep.
    apply bind_inv in Hstep as (s & w1 & Hat & Hrest).
    apply vector_at_inv in Hat as (Hid & Hs & Hw). simpl in Hs, Hw. subst w1.
    rewrite (bind_Some _ _ _ _ _ (Unref_spec _ _)) in Hrest.
    unfold ret in Hrest. injection Hrest as <- <-.
    unfold slot_ids at 2. simpl.
    by rewrite (slot_ids_insert p _ s).
Qed.

Lemma run_slot_ids cs :
  forall p w p' w',
    run cs p w = Some (p', w') -> slot_ids p `prefix_of` slot_ids p'.
Proof.
  induction cs as [|c rest IH]; intros p w p' w' Hrun; simpl in Hrun.
  - unfold ret in Hrun. by injection Hrun as <- <-.
  - apply bind_inv in Hrun as (p1 & w1 & Hstep & Hrest).
    etrans; [by eapply step_slot_ids|by eapply IH].
Qed.

Lemma Get_n_recycles k :
  forall p w,
    pool_inv p -> (k <= length (m_free p))%nat ->
    exists p' w',
      Get_n k p w = Some ((take k (m_free p), p'), w')
      /\ length (m_all p') = length (m_all p)
      /\ m_free p' = drop k (m_free p).
Proof.
  induction k as [|k IH]; intros p w Hinv Hk.
  - exists p, w. simpl. by rewrite take_0, drop_0.
  - destruct (m_free p) as [|idx rest] eqn:Hfree; [simpl in Hk; lia|].
    destruct (Get_recycle_inv p Hinv idx rest w Hfree)
      as (s & Hs & Hid & Hidx & HG & Hinv1).
    simpl in Hk.
    destruct (IH _ w Hinv1 ltac:(simpl; lia)) as (p' & w' & Hn & Hlen & Hfr).
    simpl in Hn, Hlen, Hfr. exists p', w'. simpl.
    rewrite (bind_Some _ _ _ _ _ HG). simpl.
    rewrite (bind_Some _ _ _ _ _ Hn). simpl.
    split; [done|]. split; [|done].
    by rewrite Hlen, length_insert.
Qed.

Lemma Get_n_creates n :
  forall p w,
    pool_inv p -> m_free p = [] ->
    Z.of_nat (length (m_all p)) + Z.of_nat n <= INT_MAX + 1 ->
    exists p' w',
      Get_n n p w
      = Some ((seqZ (Z.of_nat (length (m_all p))) (Z.of_nat n), p'), w')
      /\ pool_inv p' /\ m_free p' = []
      /\ m_used p'
         = m_used p ++ seqZ (Z.of_nat (length (m_all p))) (Z.of_nat n)
      /\ length (m_all p') = (length (m_all p) + n)%nat.
Proof.
  induction n as [|n IH]; intros p w Hinv Hfree Hfit.
  - exists p, w. simpl. rewrite app_nil_r, Nat.add_0_r. done.
  - assert (fits_int p) as Hfit0 by (unfold fits_int; lia).
    destruct (Get_preserves p Hinv w Hfit0) as (ptr & p1 & w1 & HG & Hinv1 & _).
    pose proof HG as HG'. rewrite (Get_new p w Hfree) in HG'.
    rewrite to_int_small in HG' by (unfold fits_int in Hfit0; lia).
    injection HG' as Hptr Hp1 Hw1.
    assert (length (m_all p1) = S (length (m_all p))) as Hlen1.
    { rewrite <- Hp1. simpl. rewrite length_app. simpl. lia. }
    assert (m_free p1 = []) as Hfree1 by by rewrite <- Hp1.
    assert (m_used p1 = m_used p ++ [Z.of_nat (length (m_all p))]) as Hused1
      by by rewrite <- Hp1.
    destruct (IH p1 w1 Hinv1 Hfree1 ltac:(lia))
      as (p' & w' & Hn & Hinv' & Hfree' & Hused' & Hlen').
    exists p', w'. simpl.
    rewrite (bind_Some _ _ _ _ _ HG). simpl.
    rewrite (bind_Some _ _ _ _ _ Hn). simpl.
    assert (seqZ (Z.of_nat (length (m_all p))) (Z.of_nat (S n))
            = Z.of_nat (length (m_all p))
              :: seqZ (Z.of_nat (length (m_all p1))) (Z.of_nat n)) as ->.
    { rewrite seqZ_cons by lia. rewrite Hlen1. f_equal. f_equal; lia. }
    split; [by rewrite <- Hptr|]. split; [done|]. split; [done|].
    split; [by rewrite Hused', Hused1, <- app_assoc|]. lia.
Qed.

Lemma run_Returns ids :
  forall p w,
    pool_inv p -> NoDup ids -> Forall (fun id => id ∈ m_used p) ids ->
    exists p' w',
      run (CallReturn <$> ids) p w = Some (p', w')
      /\ pool_inv p'
      /\ m_free p' = m_free p ++ ids
      /\ length (m_all p') = length (m_all p).
Proof.
  induction ids as [|id rest IH]; intros p w Hinv Hnd Hin.
  - exists p, w. by rewrite app_nil_r.
  - apply NoDup_cons in Hnd as [Hni Hnd].
    apply Forall_cons_1 in Hin as [Hid Hrest].
    destruct (Return_preserves p Hinv id w Hid) as (p1 & w1 & HR & Hinv1 & Hl1).
    destruct (inv_lookup p Hinv id) as (Hid0 & s & Hs & _).
    { apply elem_of_app. by left. }
    pose proof HR as HR'. rewrite (Return_at p id s w Hid0 Hs) in HR'.
    injection HR' as Hp1 Hw1.
    assert (m_free p1 = m_free p ++ [id]) as Hfree1 by by rewrite <- Hp1.
    assert (Forall (fun j => j ∈ m_used p1) rest) as Hrest1.
    { rewrite <- Hp1. simpl. apply Forall_forall. intros j Hj.
      rewrite Forall_forall in Hrest. specialize (Hrest j Hj).
      rewrite (erase_first_perm id (m_used p) Hid) in Hrest.
      apply elem_of_cons in Hrest as [->|Hjr]; done. }
    destruct (IH p1 w1 Hinv1 Hnd Hrest1) as (p' & w' & Hrun & Hinv' & Hf & Hl).
    exists p', w'. simpl. rewrite (bind_Some _ _ _ _ _ HR).
    split; [done|]. split; [done|].
    split; [by rewrite Hf, Hfree1, <- app_assoc|]. by rewrite Hl.
Qed.

(** C7. The pool only grows. A [Get] on a pool with something in [m_free]
    creates no slot. Along any sequence of [Get] and [Return] calls the ids
    of the slots already in [m_all] stay where they are: the table is only
    extended at its end. And once ids have been returned, the next [Get]s,
    as many as there are ids in [m_free], hand those out in order with the
    number of slots unchanged. In particular: returning ids that are in use
    puts them in [m_free], and the [Get]s that follow reuse them, first
    returned first, without a new slot; and from the empty pool, [n] calls
    of [Get] create [n] slots, after which returning some of them and
    taking as many again leaves the pool at [n] slots. *)
Theorem pool_grows_monotonically (p : CVideoBufferPoolDRMPRIME) (w : World) :
  (forall r p' w',
     m_free p <> [] -> Get p w = Some ((r, p'), w') ->
     length (m_all p') = length (m_all p))
  /\ (forall cs p' w',
        run cs p w = Some (p', w') ->
        slot_ids p `prefix_of` slot_ids p'
        /\ (length (m_all p) <= length (m_all p'))%nat)
  /\ (forall cs,
        pool_inv p ->
        Z.of_nat (length (m_all p)) + Z.of_nat (length cs) <= INT_MAX ->
        contract_ok cs p w = true ->
        exists p' w',
          run cs p w = Some (p', w')
          /\ slot_ids p `prefix_of` slot_ids p'
          /\ (length (m_all p) <= length (m_all p'))%nat)
  /\ (forall k,
        pool_inv p -> (k <= length (m_free p))%nat ->
        exists p' w',
          Get_n k p w = Some ((take k (m_free p), p'), w')
          /\ length (m_all p') = length (m_all p))
  /\ (forall ids,
        pool_inv p -> NoDup ids -> Forall (fun id => id ∈ m_used p) ids ->
        exists p1 w1,
          run (CallReturn <$> ids) p w = Some (p1, w1)
          /\ m_free p1 = m_free p ++ ids
          /\ length (m_all p1) = length (m_all p)
          /\ forall k, (k <= length (m_free p) + length ids)%nat ->
               exists p2 w2,
                 Get_n k p1 w1 = Some ((take k (m_free p ++ ids), p2), w2)
                 /\ length (m_all p2) = length (m_all p))
  /\ (forall n ids,
        Z.of_nat n <= INT_MAX -> NoDup ids ->
        Forall (fun id => 0 <= id < Z.of_nat n) ids ->
        exists p0 w0 p1 w1,
          Get_n n empty_pool w = Some ((seqZ 0 (Z.of_nat n), p0), w0)
          /\ length (m_all p0) = n /\ m_free p0 = []
          /\ run (CallReturn <$> ids) p0 w0 = Some (p1, w1)
          /\ length (m_all p1) = n /\ m_free p1 = ids
          /\ forall k, (k <= length ids)%nat ->
               exists p2 w2,
                 Get_n k p1 w1 = Some ((take k ids, p2), w2)
                 /\ length (m_all p2) = n).
Proof.
  assert (forall cs p' w',
            run cs p w = Some (p', w') ->
            slot_ids p `prefix_of` slot_ids p'
            /\ (length (m_all p) <= length (m_all p'))%nat) as Hgrow.
  { intros cs p' w' Hrun.
    pose proof (run_slot_ids cs p w p' w' Hrun) as Hpre.
    split; [done|].
    apply prefix_length in Hpre. unfold slot_ids in Hpre.
    by rewrite !length_fmap in Hpre. }
  assert (forall q wq ids,
            pool_inv q -> NoDup ids -> Forall (fun id => id ∈ m_used q) ids ->
            exists p1 w1,
              run (CallReturn <$> ids) q wq = Some (p1, w1)
              /\ m_free p1 = m_free q ++ ids
              /\ length (m_all p1) = length (m_all q)
              /\ forall k, (k <= length (m_free q) + length ids)%nat ->
                   exists p2 w2,
                     Get_n k p1 w1 = Some ((take k (m_free q ++ ids), p2), w2)
                     /\ length (m_all p2) = length (m_all q)) as Hreuse.
  { intros q wq ids Hinv Hnd Hin.
    destruct (run_Returns ids q wq Hinv Hnd Hin)
      as (p1 & w1 & Hrun & Hinv1 & Hf & Hl).
    exists p1, w1. split; [done|]. split; [done|]. split; [done|].
    intros k Hk.
    destruct (Get_n_recycles k p1 w1 Hinv1) as (p2 & w2 & Hn & Hlen & _).
    { rewrite Hf, length_app. lia. }
    exists p2, w2. rewrite Hf in Hn. split; [done|]. by rewrite Hlen. }
  split; [|split; [|split; [|split; [|split]]]].
  - intros r p' w' Hne HG.
    by destruct (Get_no_growth_when_free p w r p' w' Hne HG).
  - exact Hgrow.
  - intros cs Hinv Hfit Hok.
    destruct (run_keeps_invariant cs p w Hinv Hfit Hok (length cs))
      as (p' & w' & Hrun & _).
    rewrite firstn_all in Hrun.
    exists p', w'. split; [done|]. by eapply Hgrow.
  - intros k Hinv Hk.
    destruct (Get_n_recycles k p w Hinv Hk) as (p' & w' & Hn & Hlen & _).
    by exists p', w'.
  - intros ids. apply Hreuse.
  - intros n ids Hn Hnd Hin.
    destruct (Get_n_creates n empty_pool w empty_pool_inv eq_refl)
      as (p0 & w0 & HG & Hinv0 & Hfree0 & Hused0 & Hlen0).
    { simpl. lia. }
    simpl in HG, Hused0, Hlen0.
    destruct (Hreuse p0 w0 ids Hinv0 Hnd) as (p1 & w1 & Hrun & Hf & Hl & Hk).
    { rewrite Hused0. eapply Forall_impl; [exact Hin|]. simpl.
      intros id Hid. apply elem_of_seqZ. lia. }
    rewrite Hfree0 in Hf, Hk. simpl in Hf, Hk.
    exists p0, w0, p1, w1. split; [done|]. split; [done|]. split; [done|].
    split; [done|]. split; [by rewrite Hl|]. split; [done|].
    intros k Hle. destruct (Hk k Hle) as (p2 & w2 & HGn & Hlen2).
    exists p2, w2. split; [done|]. by rewrite Hlen2.
Qed.

Lemma pool_grows_monotonically_witness :
  (exists r p' w',
     Get (mkPool [Acquire (blank_slot 0); blank_slot 1; blank_slot 2]
            [0] [1; 2]) quiet_world = Some ((r, p'), w')
     /\ length (m_all p') = 3%nat)
  /\ (exists p' w',
        run [CallGet; CallReturn 0; CallReturn 0; CallGet] empty_pool
          quiet_world = Some (p', w')
        /\ slot_ids empty_pool `prefix_of` slot_ids p'
        /\ (length (m_all empty_pool) <= length (m_all p'))%nat)
  /\ (exists p' w',
        run [CallGet; CallGet; CallReturn 1] empty_pool quiet_world
        = Some (p', w')
        /\ slot_ids empty_pool `prefix_of` slot_ids p'
        /\ (length (m_all empty_pool) <= length (m_all p'))%nat)
  /\ (exists p' w',
        Get_n 2 (mkPool [Acquire (blank_slot 0); blank_slot 1; blank_slot 2]
                   [0] [1; 2]) quiet_world
        = Some ((take 2 [1; 2], p'), w')
        /\ length (m_all p') = 3%nat)
  /\ (exists p1 w1,
        run (CallReturn <$> [2; 0])
          (mkPool [live_slot; blank_slot 1; Acquire (blank_slot 2)]
             [0; 2] [1]) quiet_world = Some (p1, w1)
        /\ m_free p1 = [1] ++ [2; 0]
        /\ length (m_all p1) = 3%nat
        /\ forall k, (k <= 1 + 2)%nat ->
             exists p2 w2,
               Get_n k p1 w1 = Some ((take k ([1] ++ [2; 0]), p2), w2)
               /\ length (m_all p2) = 3%nat)
  /\ (exists p0 w0 p1 w1,
        Get_n 3 empty_pool failing_world
        = Some ((seqZ 0 (Z.of_nat 3), p0), w0)
        /\ length (m_all p0) = 3%nat /\ m_free p0 = []
        /\ run (CallReturn <$> [1; 0]) p0 w0 = Some (p1, w1)
        /\ length (m_all p1) = 3%nat /\ m_free p1 = [1; 0]
        /\ forall k, (k <= length [1; 0])%nat ->
             exists p2 w2,
               Get_n k p1 w1 = Some ((take k [1; 0], p2), w2)
               /\ length (m_all p2) = 3%nat).
Proof.
  split; [|split; [|split; [|split; [|split]]]].
  - eexists _, _, _. split; [vm_compute; reflexivity|].
    apply (proj1 (pool_grows_monotonically
             (mkPool [Acquire (blank_slot 0); blank_slot 1; blank_slot 2]
                [0] [1; 2]) quiet_world) 1 _ quiet_world).
    + discriminate.
    + vm_compute. reflexivity.
  - eexists _, _. split; [vm_compute; reflexivity|].
    eapply (proj1 (proj2 (pool_grows_monotonically empty_pool quiet_world))
              [CallGet; CallReturn 0; CallReturn 0; CallGet]).
    vm_compute. reflexivity.
  - apply (proj1 (proj2 (proj2 (pool_grows_monotonically empty_pool
                                  quiet_world)))
             [CallGet; CallGet; CallReturn 1]).
    + split; reflexivity.
    + vm_compute. discriminate.
    + vm_compute. reflexivity.
  - apply (proj1 (proj2 (proj2 (proj2 (pool_grows_monotonically
             (mkPool [Acquire (blank_slot 0); blank_slot 1; blank_slot 2]
                [0] [1; 2]) quiet_world)))) 2%nat).
    + split; reflexivity.
    + simpl. lia.
  - apply (proj1 (proj2 (proj2 (proj2 (proj2 (pool_grows_monotonically
             (mkPool [live_slot; blank_slot 1; Acquire (blank_slot 2)]
                [0; 2] [1]) quiet_world))))) [2; 0]).
    + split; [|reflexivity]. simpl.
      change (seqZ 0 (Z.of_nat 3)) with [0; 1; 2].
      apply perm_skip, Permutation_swap.
    + apply (bool_decide_unpack _). vm_compute. exact I.
    + apply Forall_cons_2; [apply list_elem_of_further, list_elem_of_here|].
      apply Forall_cons_2; [apply list_elem_of_here|]. apply Forall_nil_2.
  - apply (proj2 (proj2 (proj2 (proj2 (proj2 (pool_grows_monotonically
             empty_pool failing_world))))) 3%nat [1; 0]).
    + vm_compute. discriminate.
    + apply (bool_decide_unpack _). vm_compute. exact I.
    + apply Forall_cons_2; [lia|]. apply Forall_cons_2; [lia|].
      apply Forall_nil_2.
Defined.

(** The same on a run: two slots are created, both are returned, and the two
    [Get]s that follow hand them out again, first returned first, with the
    pool still at two slots; only the [Get] after those creates a third. *)
Example exhaust_return_reuse :
  (fun r => (slot_ids (fst r), m_used (fst r), m_free (fst r)))
    <$> run [CallGet; CallGet; CallReturn 1; CallReturn 0; CallGet; CallGet]
          empty_pool quiet_world
  = Some ([0; 1], [1; 0], [])
  /\ (fun r => (slot_ids (fst r), m_used (fst r), m_free (fst r)))
       <$> run [CallGet; CallGet; CallReturn 1; CallReturn 0; CallGet; CallGet;
                CallGet] empty_pool quiet_world
     = Some ([0; 1; 2], [1; 0; 2], []).
Proof. split; reflexivity. Qed.

(** Three pictures are decoded into an empty pool, the first is released
    while the other two are held, and a fourth is decoded: it gets the slot
    of the first, and the pool still has three slots. *)
Example three_slots_then_reuse :
  (fun r => (slot_ids (fst r), m_used (fst r), m_free (fst r)))
    <$> run [CallGet; CallGet; CallGet; CallReturn 0; CallGet] empty_pool
          quiet_world
  = Some ([0; 1; 2], [1; 2; 0], []).
Proof. reflexivity. Qed.

(** ** Handing a decoded frame to the caller *)

Lemma free_all_store (P : CVideoBufferDRMPRIME -> Prop) p ptr s :
  pool_inv p -> ptr ∉ m_free p -> 0 <= ptr -> free_all P p ->
  free_all P (store p ptr s).
Proof.
  intros Hinv Hni Hptr Hall. unfold free_all, store in *. simpl.
  apply Forall_forall. intros j Hj t Ht.
  rewrite Forall_forall in Hall.
  assert (0 <= j) as Hpos.
  { apply (inv_in_range p Hinv). apply elem_of_app. by right. }
  rewrite list_lookup_insert_ne in Ht; [by eapply Hall|].
  intros Heq. apply Hni. by replace ptr with j by lia.
Qed.

Lemma Get_keeps_free_all (P : CVideoBufferDRMPRIME -> Prop) p w ptr p' w' :
  pool_inv p -> Get p w = Some ((ptr, p'), w') ->
  free_all P p -> free_all P p'.
Proof.
  intros Hinv HG Hall. destruct (m_free p) as [|idx rest] eqn:Hfree.
  - rewrite (Get_new p w Hfree) in HG. injection HG as <- <- <-.
    apply Forall_nil_2.
  - destruct (Get_recycle_inv p Hinv idx rest w Hfree)
      as (s0 & Hs0 & Hid & Hidx & HG' & _).
    rewrite HG' in HG. injection HG as <- <- <-.
    unfold free_all in *. simpl. rewrite Hfree in Hall.
    apply Forall_cons_1 in Hall as [_ Hall].
    apply Forall_forall. intros j Hj t Ht.
    rewrite Forall_forall in Hall.
    pose proof (inv_NoDup p Hinv) as Hnd. rewrite Hfree in Hnd.
    apply NoDup_app in Hnd as (_ & _ & Hnd).
    apply NoDup_cons in Hnd as [Hni _].
    assert (0 <= j) as Hpos.
    { apply (inv_in_range p Hinv). rewrite Hfree.
      apply elem_of_app. right. by apply list_elem_of_further. }
    rewrite list_lookup_insert_ne in Ht; [by eapply Hall|].
    intros Heq. apply Hni. by replace idx with j by lia.
Qed.

Lemma store_inv p ptr s s' :
  pool_inv p -> m_all p !! Z.to_nat ptr = Some s -> m_id s' = m_id s ->
  pool_inv (store p ptr s').
Proof.
  intros Hinv Hs Hid. split; unfold store; simpl.
  - rewrite length_insert. apply (inv_perm p Hinv).
  - unfold slot_ids at 1. simpl. rewrite length_insert.
    rewrite (slot_ids_insert p _ s) by done. apply (inv_ids p Hinv).
Qed.

Lemma slots_allocated_insert (l : list CVideoBufferDRMPRIME) i s :
  Forall (fun s => is_Some (m_pFrame s)) l -> is_Some (m_pFrame s) ->
  Forall (fun s => is_Some (m_pFrame s)) (<[i := s]> l).
Proof. intros Hl Hs. by apply Forall_insert. Qed.

Lemma Unref_slot_allocated s :
  is_Some (m_pFrame s) -> is_Some (m_pFrame (Unref_slot s)).
Proof. intros [f Hf]. unfold Unref_slot. simpl. rewrite Hf. by eexists. Qed.

Lemma Release_preserves p old w :
  pool_inv p -> slots_allocated p -> old ∈ m_used p ->
  exists p1 w1,
    Release old p w = Some (p1, w1)
    /\ pool_inv p1 /\ slots_allocated p1
    /\ length (m_all p1) = length (m_all p)
    /\ w_heap w1 = w_heap w
    /\ (free_idle p -> free_idle p1)
    /\ (free_unheld p -> free_unheld p1).
Proof.
  intros Hinv Halloc Hin.
  destruct (inv_lookup p Hinv old) as (Hold & s & Hs & Hid).
  { apply elem_of_app. by left. }
  unfold Release. rewrite (bind_Some _ _ _ _ _ (vector_at_Some _ _ _ _ Hold Hs)).
  set (s' := mkBuffer (m_id s) (m_refCount s - 1) (m_drm_fd s) (m_fb_id s)
               (m_handles s) (m_pFrame s)).
  assert (pool_inv (store p old s')) as Hinv1 by by eapply store_inv.
  assert (is_Some (m_pFrame s)) as Hfs.
  { unfold slots_allocated in Halloc. rewrite Forall_lookup in Halloc.
    by eapply Halloc. }
  assert (slots_allocated (store p old s')) as Halloc1.
  { unfold slots_allocated, store. simpl. by apply slots_allocated_insert. }
  assert (forall P, free_all P p -> free_all P (store p old s')) as Hstore.
  { intros P Hall. apply free_all_store; [done| |done|done].
    by apply inv_disjoint. }
  apply lookup_lt_Some in Hs as Hlt.
  case_bool_decide as Hzero.
  - simpl. rewrite Hid.
    assert (m_all (store p old s') !! Z.to_nat old = Some s') as Hs'.
    { unfold store. simpl. by apply list_lookup_insert_eq. }
    eexists _, _. split; [by apply Return_at|]. simpl.
    destruct (Return_preserves _ Hinv1 old w) as (p1 & w1 & HR & Hinv2 & _).
    { done. }
    rewrite (Return_at _ _ _ _ Hold Hs') in HR. injection HR as <- <-.
    split; [done|]. split.
    { unfold slots_allocated. simpl. apply slots_allocated_insert.
      - by apply slots_allocated_insert.
      - by apply Unref_slot_allocated. }
    split; [by rewrite !length_insert|]. split; [done|]. split.
    + intros Hidle. apply (free_all_Return _ (store p old s') old s' Hold Hs').
      * apply Unref_slot_idle.
      * by apply Hstore.
    + intros Hheld. apply (free_all_Return _ (store p old s') old s' Hold Hs').
      * exact Hzero.
      * by apply Hstore.
  - eexists _, _. split; [done|]. split; [done|]. split; [done|].
    split; [unfold store; simpl; by rewrite length_insert|].
    split; [done|]. split; apply Hstore.
Qed.

Lemma Get_slot_ready p w :
  pool_inv p -> fits_int p -> slots_allocated p ->
  w_heap w (w_trace w) = true ->
  exists ptr s p2 w2,
    Get p w = Some ((ptr, p2), w2)
    /\ 0 <= ptr /\ m_all p2 !! Z.to_nat ptr = Some s
    /\ is_Some (m_pFrame s)
    /\ ptr ∈ m_used p2
    /\ (free_idle p -> idle s).
Proof.
  intros Hinv Hfit Halloc Hheap.
  destruct (m_free p) as [|idx rest] eqn:Hfree.
  - eexists _, _, _, _. split; [by apply Get_new|]. simpl.
    rewrite Hheap, to_int_small by (unfold fits_int in Hfit; lia).
    split; [lia|]. rewrite Nat2Z.id.
    split; [by apply list_lookup_middle|].
    split; [by eexists|].
    split; [apply elem_of_app; right; apply list_elem_of_here|].
    intros _. unfold idle. simpl. repeat split; repeat constructor.
  - destruct (Get_recycle_inv p Hinv idx rest w Hfree)
      as (s0 & Hs0 & Hid & Hidx & HG & _).
    exists idx, (Acquire s0). eexists _, _. split; [exact HG|]. simpl.
    split; [done|].
    split; [apply list_lookup_insert_eq; by eapply lookup_lt_Some|].
    split.
    { unfold slots_allocated in Halloc. rewrite Forall_lookup in Halloc.
      by eapply Halloc. }
    split; [apply elem_of_app; right; apply list_elem_of_here|].
    intros Hidle. unfold free_idle, free_all in Hidle. rewrite Hfree in Hidle.
    apply Forall_cons_1 in Hidle as [Hi _]. apply (Hi s0 Hs0).
Qed.

Lemma GetPicture_publishes e vb p w :
  pool_inv p -> fits_int p -> slots_allocated p ->
  (forall tr, w_heap w tr = true) ->
  engine_ok e -> held_buffer vb p ->
  exists ptr s p' w',
    GetPicture e vb p w = Some ((VC_PICTURE, Some ptr, p'), w')
    /\ m_all p' !! Z.to_nat ptr = Some s
    /\ frame_of s = decoded e
    /\ ptr ∈ m_used p'
    /\ (free_idle p -> m_fb_id s = 0 /\ Forall (fun h => h = 0) (m_handles s)).
Proof.
  intros Hinv Hfit Halloc Hheap (Hrecv & Hmap) Hvb.
  assert (exists p1 w1,
            match vb with Some old => Release old p | None => ret p end w
            = Some (p1, w1)
            /\ pool_inv p1 /\ slots_allocated p1
            /\ length (m_all p1) = length (m_all p)
            /\ w_heap w1 = w_heap w
            /\ (free_idle p -> free_idle p1)
            /\ (free_unheld p -> free_unheld p1))
    as (p1 & w1 & Hrel & Hinv1 & Halloc1 & Hlen1 & Hheap1 & Hidle1 & _).
  { destruct vb as [old|].
    - by apply Release_preserves.
    - by exists p, w. }
  destruct (Get_slot_ready p1 w1 Hinv1) as
    (ptr & s & p2 & w2 & HG & Hptr & Hs & [f Hf] & Hused & Hidle2).
  { unfold fits_int in *. by rewrite Hlen1. }
  { done. }
  { by rewrite Hheap1. }
  exists ptr. eexists _, _, _.
  unfold GetPicture. rewrite Hrecv.
  rewrite !bool_decide_eq_false_2 by (unfold AVERROR_EAGAIN, AVERROR_EOF; lia).
  assert (HWAccelEnabled e && bool_decide (map_ret e <> 0) = false) as ->.
  { destruct Hmap as [-> | ->]; [done|].
    rewrite bool_decide_eq_false_2 by lia. apply andb_false_r. }
  rewrite (bind_Some _ _ _ _ _ Hrel), (bind_Some _ _ _ _ _ HG). simpl.
  rewrite (bind_Some _ _ _ _ _ (vector_at_Some _ _ _ _ Hptr Hs)).
  unfold SetRef. rewrite Hf. simpl.
  split; [reflexivity|]. simpl.
  split; [apply list_lookup_insert_eq; by eapply lookup_lt_Some|].
  split; [done|]. split; [done|].
  intros Hidle. destruct (Hidle2 (Hidle1 Hidle)) as (Hfb & Hhs & _). done.
Qed.

(** With no memory for the frame holder, [Get] on the empty pool still hands
    out a slot: slot 0, reference count 1, [m_pFrame] NULL. [GetPicture] does
    not report an error for the picture: it goes on to [SetRef], which
    dereferences the NULL holder, and has no defined outcome. *)
Lemma Get_without_memory_hands_out_slot :
  Get empty_pool failing_world
  = Some ((0, mkPool [mkBuffer 0 1 (-1) 0 [0; 0; 0; 0] None] [0] []),
          log [EvFrameAlloc] failing_world)
  /\ GetPicture (mkEngine false 0 0 (FrameData 9)) None empty_pool
       failing_world = None
  /\ ~ (exists vb' p' w',
          GetPicture (mkEngine false 0 0 (FrameData 9)) None empty_pool
            failing_world = Some ((VC_ERROR, vb', p'), w')).
Proof.
  split; [reflexivity|]. split; [reflexivity|].
  intros (vb' & p' & w' & Heq). vm_compute in Heq. discriminate.
Qed.

Lemma GetPicture_VC_ERROR_inv e vb p w vb' p' w' :
  GetPicture e vb p w = Some ((VC_ERROR, vb', p'), w') ->
  receive_ret e <> AVERROR_EAGAIN /\ receive_ret e <> AVERROR_EOF
  /\ (receive_ret e <> 0 \/ (HWAccelEnabled e = true /\ map_ret e <> 0))
  /\ vb' = vb /\ p' = p /\ w' = w.
Proof.
  unfold GetPicture.
  case_bool_decide as H1; [unfold ret; intros [=]|].
  case_bool_decide as H2; [unfold ret; intros [=]|].
  case_bool_decide as H3.
  { unfold ret. intros [= <- <- <-]. repeat split; try done. by left. }
  destruct (HWAccelEnabled e && bool_decide (map_ret e <> 0)) eqn:H4.
  { unfold ret. intros [= <- <- <-]. repeat split; try done. right.
    apply andb_prop in H4 as [-> H4]. by apply bool_decide_eq_true_1 in H4. }
  intros Hb.
  apply bind_inv in Hb as (p1 & w1 & _ & Hb).
  apply bind_inv in Hb as (r & w2 & _ & Hb).
  apply bind_inv in Hb as (s & w3 & _ & Hb).
  apply bind_inv in Hb as (r' & w4 & _ & Hb).
  unfold ret in Hb. discriminate.
Qed.

(** C9, as the code has it. [Get] has no failure result: with nothing in
    [m_free] it creates a slot and returns a pointer to it, reference count
    1, whatever the allocator answers. [GetPicture] reports [VC_ERROR] when
    the engine's receive call fails (other than with EAGAIN or EOF) or its map
    call fails, and then leaves picture and pool as they were; it reports
    [VC_ERROR] in no other case. When the engine delivered a frame and memory
    is not short, it publishes a buffer that holds the frame and reports
    [VC_PICTURE]. *)
Theorem GetPicture_errors_come_from_engine (e : Engine) (vb : option Z)
    (p : CVideoBufferPoolDRMPRIME) (w : World) :
  (m_free p = [] ->
   exists s w',
     Get p w
     = Some ((Z.of_nat (length (m_all p)),
              mkPool (m_all p ++ [s]) (m_used p ++ [m_id s]) []), w')
     /\ m_refCount s = 1)
  /\ (receive_ret e <> AVERROR_EAGAIN -> receive_ret e <> AVERROR_EOF ->
      receive_ret e <> 0 \/ (HWAccelEnabled e = true /\ map_ret e <> 0) ->
      GetPicture e vb p w = Some ((VC_ERROR, vb, p), w))
  /\ (forall vb' p' w',
        GetPicture e vb p w = Some ((VC_ERROR, vb', p'), w') ->
        receive_ret e <> AVERROR_EAGAIN /\ receive_ret e <> AVERROR_EOF
        /\ (receive_ret e <> 0 \/ (HWAccelEnabled e = true /\ map_ret e <> 0)))
  /\ (pool_inv p -> fits_int p -> slots_allocated p ->
      (forall tr, w_heap w tr = true) -> engine_ok e -> held_buffer vb p ->
      exists ptr s p' w',
        GetPicture e vb p w = Some ((VC_PICTURE, Some ptr, p'), w')
        /\ m_all p' !! Z.to_nat ptr = Some s
        /\ frame_of s = decoded e
        /\ ptr ∈ m_used p').
Proof.
  split; [|split; [|split]].
  - intros Hfree.
    exists (Acquire (CVideoBuffer_init (to_int (Z.of_nat (length (m_all p))))
                       (if w_heap w (w_trace w) then Some FrameEmpty
                        else None))).
    eexists. split; [by apply Get_new|]. done.
  - intros H1 H2 H3. unfold GetPicture.
    rewrite !bool_decide_eq_false_2 by done.
    destruct H3 as [H3 | [Hhw H3]].
    + by rewrite bool_decide_eq_true_2.
    + case_bool_decide; [done|].
      by rewrite Hhw, bool_decide_eq_true_2.
  - intros vb' p' w' Heq.
    apply GetPicture_VC_ERROR_inv in Heq as (? & ? & ? & _). done.
  - intros Hinv Hfit Halloc Hheap Hok Hvb.
    destruct (GetPicture_publishes e vb p w Hinv Hfit Halloc Hheap Hok Hvb)
      as (ptr & s & p' & w' & HG & Hs & Hfr & Hu & _).
    by exists ptr, s, p', w'.
Qed.

Lemma GetPicture_errors_come_from_engine_witness :
  (exists s w',
     Get empty_pool failing_world
     = Some ((0, mkPool ([] ++ [s]) ([] ++ [m_id s]) []), w')
     /\ m_refCount s = 1)
  /\ GetPicture (mkEngine true 0 (-5) (FrameData 9)) None empty_pool
       quiet_world
     = Some ((VC_ERROR, None, empty_pool), quiet_world)
  /\ (exists ptr s p' w',
        GetPicture (mkEngine true 0 0 (FrameData 9)) None empty_pool
          quiet_world = Some ((VC_PICTURE, Some ptr, p'), w')
        /\ m_all p' !! Z.to_nat ptr = Some s
        /\ frame_of s = FrameData 9
        /\ ptr ∈ m_used p').
Proof.
  split; [|split].
  - apply (proj1 (GetPicture_errors_come_from_engine
             (mkEngine true 0 0 FrameEmpty) None empty_pool failing_world)).
    reflexivity.
  - apply (proj1 (proj2 (GetPicture_errors_come_from_engine
             (mkEngine true 0 (-5) (FrameData 9)) None empty_pool quiet_world))).
    + discriminate.
    + discriminate.
    + right. split; [reflexivity | discriminate].
  - apply (proj2 (proj2 (proj2 (GetPicture_errors_come_from_engine
             (mkEngine true 0 0 (FrameData 9)) None empty_pool quiet_world)))).
    + split; reflexivity.
    + unfold fits_int. vm_compute. discriminate.
    + apply Forall_nil_2.
    + reflexivity.
    + split; [reflexivity | by right].
    + exact I.
Defined.

(** ** Taking a new frame *)

(** [SetRef] on a slot that still holds resources releases none of them:
    no call is made, the registration and the handles of the old frame stay
    in the slot, and the data of the old frame is overwritten without being
    dropped; [Unref] would have made three kernel calls and dropped it. *)
Lemma SetRef_live_slot_releases_nothing :
  SetRef live_slot (FrameData 2) quiet_world
  = Some ((mkBuffer 0 1 5 7 [3; 0; 4; 0] (Some (FrameData 2)), FrameEmpty),
          quiet_world)
  /\ Unref_events live_slot
     = [EvRmFB 5 7; EvGemClose 5 3; EvGemClose 5 4; EvFrameDrop 1]
  /\ ~ (exists r w',
          SetRef live_slot (FrameData 2) quiet_world = Some (r, w')
          /\ w_trace w' = w_trace quiet_world ++ Unref_events live_slot
          /\ m_fb_id (fst r) = 0
          /\ Forall (fun h => h = 0) (m_handles (fst r))).
Proof.
  split; [reflexivity|]. split; [reflexivity|].
  intros (r & w' & Heq & Htr & _). vm_compute in Heq.
  injection Heq as <- <-. vm_compute in Htr. discriminate.
Qed.

(** C4, as the code has it. [SetRef] releases nothing and makes no call: on
    a slot whose frame holder exists it puts the new frame in place of the
    old one, blanks the caller's frame, and leaves the frame-buffer
    registration and the handles as they were. On an idle slot the result
    therefore holds the new frame and no kernel resource. That is the case
    in [GetPicture]: when the slots in [m_free] are idle, the slot that [Get]
    hands out is idle, and the buffer published holds the decoded frame and
    no kernel resource. *)
Theorem SetRef_moves_frame_only (s : CVideoBufferDRMPRIME) (old new : AVFrame)
    (w : World) (e : Engine) (vb : option Z) (p : CVideoBufferPoolDRMPRIME) :
  (m_pFrame s = Some old ->
   SetRef s new w
   = Some ((mkBuffer (m_id s) (m_refCount s) (m_drm_fd s) (m_fb_id s)
              (m_handles s) (Some new), FrameEmpty), w))
  /\ (m_pFrame s = Some old -> idle s ->
      exists s', SetRef s new w = Some ((s', FrameEmpty), w)
                 /\ frame_of s' = new
                 /\ m_fb_id s' = 0
                 /\ Forall (fun h => h = 0) (m_handles s'))
  /\ (pool_inv p -> fits_int p -> slots_allocated p -> free_idle p ->
      (forall tr, w_heap w tr = true) -> engine_ok e -> held_buffer vb p ->
      exists ptr s' p' w',
        GetPicture e vb p w = Some ((VC_PICTURE, Some ptr, p'), w')
        /\ m_all p' !! Z.to_nat ptr = Some s'
        /\ frame_of s' = decoded e
        /\ m_fb_id s' = 0
        /\ Forall (fun h => h = 0) (m_handles s')).
Proof.
  assert (m_pFrame s = Some old ->
          SetRef s new w
          = Some ((mkBuffer (m_id s) (m_refCount s) (m_drm_fd s) (m_fb_id s)
                     (m_handles s) (Some new), FrameEmpty), w)) as Heq.
  { intros Hfr. unfold SetRef. by rewrite Hfr. }
  split; [exact Heq|]. split.
  - intros Hfr (Hfb & Hhs & _). eexists. split; [exact (Heq Hfr)|]. done.
  - intros Hinv Hfit Halloc Hidle Hheap Hok Hvb.
    destruct (GetPicture_publishes e vb p w Hinv Hfit Halloc Hheap Hok Hvb)
      as (ptr & s' & p' & w' & HG & Hs & Hfr & _ & Hres).
    destruct (Hres Hidle) as [Hfb Hhs].
    by exists ptr, s', p', w'.
Qed.

Lemma SetRef_moves_frame_only_witness :
  (m_pFrame (blank_slot 0) = Some FrameEmpty
   /\ idle (blank_slot 0)
   /\ SetRef (blank_slot 0) (FrameData 2) quiet_world
      = Some ((mkBuffer 0 0 (-1) 0 (replicate AV_DRM_MAX_PLANES 0)
                 (Some (FrameData 2)), FrameEmpty), quiet_world))
  /\ (exists ptr s' p' w',
        GetPicture (mkEngine true 0 0 (FrameData 2)) (Some 0)
          (mkPool [Acquire (blank_slot 0); blank_slot 1] [0] [1]) quiet_world
        = Some ((VC_PICTURE, Some ptr, p'), w')
        /\ m_all p' !! Z.to_nat ptr = Some s'
        /\ frame_of s' = FrameData 2
        /\ m_fb_id s' = 0
        /\ Forall (fun h => h = 0) (m_handles s')).
Proof.
  split.
  - split; [reflexivity|]. split; [concrete_slots|].
    exact (proj1 (SetRef_moves_frame_only (blank_slot 0) FrameEmpty
                    (FrameData 2) quiet_world (mkEngine false 0 0 FrameEmpty)
                    None empty_pool) eq_refl).
  - apply (proj2 (proj2 (SetRef_moves_frame_only (blank_slot 0) FrameEmpty
                           (FrameData 2) quiet_world
                           (mkEngine true 0 0 (FrameData 2)) (Some 0)
                           (mkPool [Acquire (blank_slot 0); blank_slot 1]
                              [0] [1])))).
    + split; reflexivity.
    + unfold fits_int. vm_compute. discriminate.
    + unfold slots_allocated. simpl. concrete_slots.
    + unfold free_idle, free_all. simpl. concrete_slots.
    + reflexivity.
    + split; [reflexivity | by right].
    + apply list_elem_of_here.
Defined.

(** * Further properties *)

(** ** Destruction of slots and pool *)

Lemma av_frame_free_blank (fr : option AVFrame) w :
  (fr = None \/ fr = Some FrameEmpty) -> av_frame_free fr w = Some (None, w).
Proof. by intros [-> | ->]. Qed.

Lemma delete_slot_spec s w :
  delete_CVideoBufferDRMPRIME s w = Some (tt, log (Unref_events s) w).
Proof.
  unfold delete_CVideoBufferDRMPRIME.
  rewrite (bind_Some _ _ _ _ _ (Unref_spec s w)).
  assert (m_pFrame (Unref_slot s) = None
          \/ m_pFrame (Unref_slot s) = Some FrameEmpty) as Hfr.
  { unfold Unref_slot. simpl. destruct (m_pFrame s); auto. }
  by rewrite (bind_Some _ _ _ _ _ (av_frame_free_blank _ _ Hfr)).
Qed.

Lemma delete_all_spec bufs :
  forall w,
    delete_all bufs w = Some (tt, log (concat (Unref_events <$> bufs)) w).
Proof.
  induction bufs as [|buf rest IH]; intros w; simpl.
  - unfold ret. by rewrite log_nil.
  - rewrite (bind_Some _ _ _ _ _ (delete_slot_spec buf w)).
    by rewrite IH, log_log.
Qed.

(** The destructor of the pool is defined on every pool, whatever the kernel
    answers and whatever [m_used] and [m_free] hold: it makes, slot by slot
    in the order of [m_all], exactly the calls of one teardown of each
    slot. *)
Theorem pool_destructor_tears_down_every_slot (p : CVideoBufferPoolDRMPRIME)
    (tr : list Event) (kernel : list Event -> Event -> Z)
    (heap : list Event -> bool) :
  delete_CVideoBufferPoolDRMPRIME p (mkWorld tr kernel heap)
  = Some (tt, mkWorld (tr ++ concat (Unref_events <$> m_all p)) kernel heap).
Proof.
  unfold delete_CVideoBufferPoolDRMPRIME. by rewrite delete_all_spec.
Qed.

Lemma Unref_events_Unref_slot s : Unref_events (Unref_slot s) = [].
Proof. apply idle_Unref_events, Unref_slot_idle. Qed.

(** A slot given back with [Return] is not released a second time when the
    pool is destroyed: the calls of [Return(id)] followed by the destructor
    are one teardown of slot [id], then one teardown of each other slot. *)
Theorem Return_then_destructor_releases_once (p : CVideoBufferPoolDRMPRIME)
    (id : Z) (w : World) :
  pool_inv p -> id ∈ m_used p ->
  exists s p1 w1,
    m_all p !! Z.to_nat id = Some s
    /\ Return id p w = Some (p1, w1)
    /\ delete_CVideoBufferPoolDRMPRIME p1 w1
       = Some (tt, log (Unref_events s
                        ++ concat (Unref_events
                                     <$> delete (Z.to_nat id) (m_all p))) w).
Proof.
  intros Hinv Hin.
  destruct (inv_lookup p Hinv id) as (Hid & s & Hs & _).
  { apply elem_of_app. by left. }
  eexists s, _, _. split; [done|]. split; [by apply Return_at|].
  unfold delete_CVideoBufferPoolDRMPRIME. simpl.
  rewrite delete_all_spec, log_log. do 2 f_equal.
  apply lookup_lt_Some in Hs as Hlt.
  rewrite insert_take_drop by done. rewrite delete_take_drop.
  rewrite !fmap_app, fmap_cons, !concat_app, concat_cons.
  by rewrite Unref_events_Unref_slot.
Qed.

Lemma Return_then_destructor_releases_once_witness :
  exists s p1 w1,
    m_all (mkPool [live_slot; blank_slot 1] [0; 1] []) !! Z.to_nat 0 = Some s
    /\ Return 0 (mkPool [live_slot; blank_slot 1] [0; 1] []) quiet_world
       = Some (p1, w1)
    /\ delete_CVideoBufferPoolDRMPRIME p1 w1
       = Some (tt, log (Unref_events s
                        ++ concat (Unref_events
                                     <$> delete (Z.to_nat 0)
                                           [live_slot; blank_slot 1]))
                     quiet_world).
Proof.
  apply (Return_then_destructor_releases_once
           (mkPool [live_slot; blank_slot 1] [0; 1] []) 0 quiet_world).
  - split; reflexivity.
  - apply list_elem_of_here.
Defined.

(** ** What [Return] erases *)

(** [Return(id)] erases from [m_used] the first entry equal to [id] and no
    other: the entries before it, and everything after it (further copies of
    [id] included), stay in place and in order. *)
Theorem Return_erases_first_entry_only (p : CVideoBufferPoolDRMPRIME) (id : Z)
    (s : CVideoBufferDRMPRIME) (w : World) :
  0 <= id -> m_all p !! Z.to_nat id = Some s -> id ∈ m_used p ->
  exists l1 l2 p' w',
    Return id p w = Some (p', w')
    /\ m_used p = l1 ++ id :: l2
    /\ (id ∉ l1)
    /\ m_used p' = l1 ++ l2
    /\ S (length (m_used p')) = length (m_used p).
Proof.
  intros Hid Hs Hin.
  destruct (erase_first_split id (m_used p) Hin) as (l1 & l2 & Hl & Hni & He).
  exists l1, l2. eexists _, _. split; [by apply Return_at|]. simpl.
  split; [done|]. split; [done|]. split; [done|].
  rewrite He, Hl, !length_app. simpl. lia.
Qed.

Lemma Return_erases_first_entry_only_witness :
  exists l1 l2 p' w',
    Return 1 (mkPool [blank_slot 0; blank_slot 1] [0; 1; 0; 1] []) quiet_world
    = Some (p', w')
    /\ [0; 1; 0; 1] = l1 ++ 1 :: l2
    /\ (1 ∉ l1)
    /\ m_used p' = l1 ++ l2
    /\ S (length (m_used p')) = length [0; 1; 0; 1].
Proof.
  apply (Return_erases_first_entry_only
           (mkPool [blank_slot 0; blank_slot 1] [0; 1; 0; 1] []) 1
           (blank_slot 1) quiet_world).
  - lia.
  - reflexivity.
  - apply list_elem_of_further, list_elem_of_here.
Defined.

(** ** Round trips *)

(** Putting a frame into an idle slot and tearing the slot down again gives
    back the slot as it was; the only thing released on the way is the data of
    the frame that was put in. *)
Theorem SetRef_then_Unref_round_trip (s : CVideoBufferDRMPRIME)
    (new : AVFrame) (w : World) :
  idle s -> is_Some (m_pFrame s) ->
  exists s1,
    SetRef s new w = Some ((s1, FrameEmpty), w)
    /\ Unref s1 w
       = Some (s, log (match new with
                       | FrameEmpty => []
                       | FrameData d => [EvFrameDrop d]
                       end) w).
Proof.
  intros Hidle [old Hold].
  pose proof (idle_Unref_slot s Hidle) as Hsame.
  destruct Hidle as (Hfb & Hhs & Hfr).
  exists (mkBuffer (m_id s) (m_refCount s) (m_drm_fd s) (m_fb_id s)
            (m_handles s) (Some new)).
  split; [unfold SetRef; by rewrite Hold|].
  rewrite Unref_spec.
  assert (Unref_slot (mkBuffer (m_id s) (m_refCount s) (m_drm_fd s)
                        (m_fb_id s) (m_handles s) (Some new)) = s) as ->.
  { etrans; [|exact Hsame]. unfold Unref_slot. simpl. by rewrite Hold. }
  do 2 f_equal.
  unfold Unref_events, fb_events, frame_events, frame_of. simpl.
  rewrite bool_decide_eq_true_2 by done.
  by rewrite handle_events_zero.
Qed.

Lemma SetRef_then_Unref_round_trip_witness :
  exists s1,
    SetRef (blank_slot 3) (FrameData 8) failing_world
    = Some ((s1, FrameEmpty), failing_world)
    /\ Unref s1 failing_world
       = Some (blank_slot 3, log [EvFrameDrop 8] failing_world).
Proof.
  apply (SetRef_then_Unref_round_trip (blank_slot 3) (FrameData 8)
           failing_world).
  - concrete_slots.
  - by eexists.
Defined.

Lemma erase_first_snoc id l : id ∉ l -> erase_first id (l ++ [id]) = l.
Proof.
  induction l as [|x rest IH]; intros Hni; simpl.
  - by rewrite bool_decide_eq_true_2.
  - apply not_elem_of_cons in Hni as [Hne Hni].
    rewrite bool_decide_eq_false_2 by done. by rewrite IH.
Qed.

Lemma inv_lengths p :
  pool_inv p ->
  (length (m_used p) + length (m_free p) = length (m_all p))%nat.
Proof.
  intros Hinv. pose proof (inv_perm p Hinv) as Hperm.
  apply Permutation_length in Hperm.
  rewrite length_app, length_seqZ in Hperm. lia.
Qed.

Lemma Get_shape p w :
  pool_inv p -> fits_int p ->
  exists ptr p1 w1,
    Get p w = Some ((ptr, p1), w1)
    /\ pool_inv p1
    /\ m_used p1 = m_used p ++ [ptr]
    /\ m_free p1 = drop 1 (m_free p)
    /\ (ptr ∉ m_used p)
    /\ (match m_free p with
        | [] => length (m_all p1) = S (length (m_all p))
        | _ :: _ => length (m_all p1) = length (m_all p)
        end).
Proof.
  intros Hinv Hfit.
  destruct (Get_preserves p Hinv w Hfit) as (ptr & p1 & w1 & HG & Hinv1 & _).
  exists ptr, p1, w1. split; [done|]. split; [done|].
  destruct (m_free p) as [|idx rest] eqn:Hfree.
  - rewrite (Get_new p w Hfree) in HG. injection HG as <- <- <-. simpl.
    rewrite to_int_small by (unfold fits_int in Hfit; lia).
    split; [done|]. split; [done|]. split.
    + intros Hin.
      assert (Z.of_nat (length (m_all p)) ∈ m_used p ++ m_free p) as Hin'.
      { apply elem_of_app. by left. }
      apply (inv_in_range p Hinv) in Hin'. lia.
    + rewrite length_app. simpl. lia.
  - destruct (Get_recycle_inv p Hinv idx rest w Hfree)
      as (s0 & Hs0 & Hid & Hidx & HG' & _).
    rewrite HG' in HG. injection HG as <- <- <-. simpl.
    split; [done|]. split; [by rewrite drop_0|]. split.
    + intros Hin. apply (inv_disjoint p Hinv idx Hin).
      rewrite Hfree. apply list_elem_of_here.
    + by rewrite length_insert.
Qed.

(** Taking a slot and giving it straight back: [m_used] is as before, the
    slot went to the back of [m_free] (the queue turned by one when it was
    not empty), the slot is idle, and the pool is in order. *)
Theorem Get_then_Return_round_trip (p : CVideoBufferPoolDRMPRIME) (w : World) :
  pool_inv p -> fits_int p ->
  exists ptr p1 w1 p2 w2 s,
    Get p w = Some ((ptr, p1), w1)
    /\ Return ptr p1 w1 = Some (p2, w2)
    /\ m_used p2 = m_used p
    /\ m_free p2 = drop 1 (m_free p) ++ [ptr]
    /\ pool_inv p2
    /\ m_all p2 !! Z.to_nat ptr = Some s /\ idle s.
Proof.
  intros Hinv Hfit.
  destruct (Get_shape p w Hinv Hfit)
    as (ptr & p1 & w1 & HG & Hinv1 & Hu & Hf & Hni & _).
  assert (ptr ∈ m_used p1) as Hin.
  { rewrite Hu. apply elem_of_app. right. apply list_elem_of_here. }
  destruct (inv_lookup p1 Hinv1 ptr) as (Hptr & s1 & Hs1 & _).
  { apply elem_of_app. by left. }
  destruct (Return_preserves p1 Hinv1 ptr w1 Hin) as (p2 & w2 & HR & Hinv2 & _).
  exists ptr, p1, w1, p2, w2, (Unref_slot s1).
  split; [done|]. split; [done|].
  rewrite (Return_at p1 ptr s1 w1 Hptr Hs1) in HR. injection HR as <- <-.
  simpl.
  split; [by rewrite Hu, erase_first_snoc|]. split; [by rewrite Hf|].
  split; [exact Hinv2|].
  split; [|apply Unref_slot_idle].
  apply list_lookup_insert_eq. by eapply lookup_lt_Some.
Qed.

Lemma Get_then_Return_round_trip_witness :
  exists ptr p1 w1 p2 w2 s,
    Get (mkPool [blank_slot 0; Acquire (blank_slot 1); blank_slot 2]
           [1] [2; 0]) quiet_world = Some ((ptr, p1), w1)
    /\ Return ptr p1 w1 = Some (p2, w2)
    /\ m_used p2 = [1]
    /\ m_free p2 = drop 1 [2; 0] ++ [ptr]
    /\ pool_inv p2
    /\ m_all p2 !! Z.to_nat ptr = Some s /\ idle s.
Proof.
  apply (Get_then_Return_round_trip
           (mkPool [blank_slot 0; Acquire (blank_slot 1); blank_slot 2]
              [1] [2; 0]) quiet_world).
  - split; [|reflexivity]. simpl.
    change (seqZ 0 (Z.of_nat 3)) with [0; 1; 2].
    etrans; [apply perm_skip, Permutation_swap|]. apply Permutation_swap.
  - unfold fits_int. vm_compute. discriminate.
Defined.

(** ** How many slots a pool has *)

Lemma peak_used_ge cs p w : (length (m_used p) <= peak_used cs p w)%nat.
Proof.
  destruct cs as [|c rest]; simpl; [done|].
  destruct (step c p w) as [[p' w']|]; lia.
Qed.

Lemma step_growth c p w :
  pool_inv p -> fits_int p ->
  match c with CallGet => True | CallReturn id => id ∈ m_used p end ->
  exists p1 w1,
    step c p w = Some (p1, w1)
    /\ pool_inv p1
    /\ (length (m_all p1) = length (m_all p)
        \/ (length (m_all p1) = S (length (m_all p))
            /\ length (m_used p1) = length (m_all p1))).
Proof.
  intros Hinv Hfit Hc. destruct c as [|id]; simpl.
  - destruct (Get_shape p w Hinv Hfit)
      as (ptr & p1 & w1 & HG & Hinv1 & Hu & Hf & _ & Hlen).
    exists p1, w1. rewrite (bind_Some _ _ _ _ _ HG).
    split; [done|]. split; [done|].
    destruct (m_free p) as [|idx rest] eqn:Hfree; [right|by left].
    split; [done|].
    pose proof (inv_lengths p1 Hinv1) as Hl1.
    rewrite Hf in Hl1. simpl in Hl1. lia.
  - destruct (Return_preserves p Hinv id w Hc) as (p1 & w1 & HR & Hinv1 & Hl).
    exists p1, w1. split; [done|]. split; [done|]. by left.
Qed.

Lemma slot_count_from cs :
  forall p w,
    pool_inv p ->
    Z.of_nat (length (m_all p)) + Z.of_nat (length cs) <= INT_MAX ->
    contract_ok cs p w = true ->
    exists p' w',
      run cs p w = Some (p', w')
      /\ length (m_all p')
         = Nat.max (length (m_all p)) (peak_used cs p w).
Proof.
  induction cs as [|c rest IH]; intros p w Hinv Hfit Hok.
  - exists p, w. split; [done|]. simpl.
    pose proof (inv_lengths p Hinv). lia.
  - simpl in Hok, Hfit. apply andb_prop in Hok as [Hc Hrest].
    destruct (step_growth c p w Hinv) as (p1 & w1 & Hstep & Hinv1 & Hlen).
    { unfold fits_int. lia. }
    { destruct c as [|id]; [done|]. by apply bool_decide_eq_true_1 in Hc. }
    rewrite Hstep in Hrest.
    destruct (IH p1 w1 Hinv1 ltac:(lia) Hrest) as (p' & w' & Hrun & Hcount).
    exists p', w'. simpl. rewrite (bind_Some _ _ _ _ _ Hstep).
    split; [done|]. rewrite Hstep, Hcount.
    pose proof (inv_lengths p Hinv).
    pose proof (peak_used_ge rest p1 w1).
    lia.
Qed.

(** The pool has as many slots as were ever in use at once. Start from the
    empty pool and make calls that keep the contract of [Return]: the calls
    are all defined, and the number of slots at the end is the largest size
    [m_used] had along the way. *)
Theorem slot_count_is_peak_usage (cs : list Call) (w : World) :
  Z.of_nat (length cs) <= INT_MAX ->
  contract_ok cs empty_pool w = true ->
  exists p' w',
    run cs empty_pool w = Some (p', w')
    /\ length (m_all p') = peak_used cs empty_pool w.
Proof.
  intros Hlen Hok.
  destruct (slot_count_from cs empty_pool w empty_pool_inv Hlen Hok)
    as (p' & w' & Hrun & Hcount).
  exists p', w'. split; [done|]. by rewrite Hcount.
Qed.

Lemma slot_count_is_peak_usage_witness :
  exists p' w',
    run [CallGet; CallGet; CallReturn 0; CallGet; CallReturn 1; CallReturn 0;
         CallGet] empty_pool quiet_world = Some (p', w')
    /\ length (m_all p')
       = peak_used [CallGet; CallGet; CallReturn 0; CallGet; CallReturn 1;
                    CallReturn 0; CallGet] empty_pool quiet_world.
Proof.
  apply (slot_count_is_peak_usage
           [CallGet; CallGet; CallReturn 0; CallGet; CallReturn 1;
            CallReturn 0; CallGet] quiet_world).
  - vm_compute. discriminate.
  - vm_compute. reflexivity.
Defined.

(** In that run two slots are enough for four pictures. *)
Example two_slots_for_four_pictures :
  peak_used [CallGet; CallGet; CallReturn 0; CallGet; CallReturn 1;
             CallReturn 0; CallGet] empty_pool quiet_world = 2%nat.
Proof. reflexivity. Qed.

(** ** [GetPicture] and the pool *)

Lemma GetPicture_no_frame e vb p w :
  receive_ret e <> 0 \/ (HWAccelEnabled e = true /\ map_ret e <> 0) ->
  exists rc, GetPicture e vb p w = Some ((rc, vb, p), w).
Proof.
  intros Hno. unfold GetPicture.
  case_bool_decide; [by eexists|].
  case_bool_decide; [by eexists|].
  case_bool_decide; [by eexists|].
  destruct Hno as [Hno | [Hhw Hmap]]; [done|].
  rewrite Hhw, bool_decide_eq_true_2 by done. by eexists.
Qed.

(** When the engine has no frame to give (it asks for more data, is at the
    end, or fails to receive or to map), [GetPicture] leaves everything as it
    found it: the picture keeps the buffer it came with, which is not
    released, the pool is not touched and nothing is called. The return value
    is [VC_BUFFER] exactly for EAGAIN and [VC_EOF] exactly for end of
    stream. This holds for any pool, in order or not. *)
Theorem GetPicture_without_frame_touches_nothing (e : Engine)
    (vb : option Z) (p : CVideoBufferPoolDRMPRIME) (w : World) :
  receive_ret e <> 0 \/ (HWAccelEnabled e = true /\ map_ret e <> 0) ->
  exists rc,
    GetPicture e vb p w = Some ((rc, vb, p), w)
    /\ rc <> VC_PICTURE
    /\ (rc = VC_BUFFER <-> receive_ret e = AVERROR_EAGAIN)
    /\ (rc = VC_EOF <-> receive_ret e = AVERROR_EOF).
Proof.
  intros Hno. unfold GetPicture.
  case_bool_decide as H1.
  { exists VC_BUFFER. repeat split; try done.
    rewrite H1. discriminate. }
  case_bool_decide as H2.
  { exists VC_EOF. repeat split; done. }
  case_bool_decide as H3.
  { exists VC_ERROR. repeat split; done. }
  destruct Hno as [Hno | [Hhw Hmap]]; [done|].
  rewrite Hhw, bool_decide_eq_true_2 by done. simpl.
  exists VC_ERROR. repeat split; done.
Qed.

Lemma GetPicture_without_frame_touches_nothing_witness :
  exists rc,
    GetPicture (mkEngine true AVERROR_EAGAIN 0 FrameEmpty) (Some 0)
      (mkPool [live_slot] [0] []) failing_world
    = Some ((rc, Some 0, mkPool [live_slot] [0] []), failing_world)
    /\ rc <> VC_PICTURE
    /\ (rc = VC_BUFFER <-> AVERROR_EAGAIN = AVERROR_EAGAIN)
    /\ (rc = VC_EOF <-> AVERROR_EAGAIN = AVERROR_EOF).
Proof.
  apply (GetPicture_without_frame_touches_nothing
           (mkEngine true AVERROR_EAGAIN 0 FrameEmpty) (Some 0)
           (mkPool [live_slot] [0] []) failing_world).
  left. discriminate.
Defined.

(** With one holder per picture the pool does not grow: when the picture
    comes in with the only reference to its buffer and nothing is free,
    [GetPicture] gives that buffer back to the pool, tears it down, takes it
    out again and publishes it with the new frame. No slot is created and no
    memory is asked for; the calls made are those of the teardown. *)
Theorem GetPicture_reuses_the_picture_buffer (e : Engine) (old : Z)
    (s : CVideoBufferDRMPRIME) (p : CVideoBufferPoolDRMPRIME) (w : World) :
  engine_ok e -> 0 <= old -> m_all p !! Z.to_nat old = Some s ->
  m_id s = old -> m_refCount s = 1 -> is_Some (m_pFrame s) ->
  m_free p = [] ->
  GetPicture e (Some old) p w
  = Some ((VC_PICTURE, Some old,
           mkPool (<[Z.to_nat old :=
                       mkBuffer old 1 (m_drm_fd s) 0
                         (replicate (length (m_handles s)) 0)
                         (Some (decoded e))]> (m_all p))
             (erase_first old (m_used p) ++ [old]) []),
          log (Unref_events s) w).
Proof.
  intros (Hrecv & Hmap) Hold Hs Hid Hrc [f Hf] Hfree.
  apply lookup_lt_Some in Hs as Hlt.
  unfold GetPicture. rewrite Hrecv.
  rewrite !bool_decide_eq_false_2 by (unfold AVERROR_EAGAIN, AVERROR_EOF; lia).
  assert (HWAccelEnabled e && bool_decide (map_ret e <> 0) = false) as ->.
  { destruct Hmap as [-> | ->]; [done|].
    rewrite bool_decide_eq_false_2 by lia. apply andb_false_r. }
  set (s0 := mkBuffer (m_id s) (m_refCount s - 1) (m_drm_fd s) (m_fb_id s)
               (m_handles s) (m_pFrame s)).
  assert (Release old p w
          = Some (mkPool (<[Z.to_nat old := Unref_slot s0]> (m_all p))
                    (erase_first old (m_used p)) [old],
                  log (Unref_events s) w)) as Hrel.
  { unfold Release.
    rewrite (bind_Some _ _ _ _ _ (vector_at_Some _ _ _ _ Hold Hs)).
    fold s0. rewrite bool_decide_eq_true_2 by (simpl; lia).
    simpl. rewrite Hid.
    rewrite (Return_at (store p old s0) old s0 w Hold)
      by (unfold store; simpl; by apply list_lookup_insert_eq).
    unfold store. simpl. by rewrite list_insert_insert_eq, Hfree. }
  rewrite (bind_Some _ _ _ _ _ Hrel).
  erewrite bind_Some; last first.
  { eapply Get_recycle; simpl; [done|done|].
    apply list_lookup_insert_eq. done. }
  simpl. rewrite (list_insert_insert_eq (m_all p)).
  erewrite bind_Some; last first.
  { apply vector_at_Some; [done|]. simpl.
    apply list_lookup_insert_eq. done. }
  unfold SetRef. simpl. rewrite Hf.
  unfold store, av_frame_move_ref, bind, ret. simpl.
  rewrite (list_insert_insert_eq (m_all p)).
  by rewrite Hid, Hrc.
Qed.

Lemma GetPicture_reuses_the_picture_buffer_witness :
  GetPicture (mkEngine true 0 0 (FrameData 2)) (Some 0)
    (mkPool [live_slot] [0] []) quiet_world
  = Some ((VC_PICTURE, Some 0,
           mkPool (<[Z.to_nat 0 :=
                       mkBuffer 0 1 (m_drm_fd live_slot) 0
                         (replicate (length (m_handles live_slot)) 0)
                         (Some (FrameData 2))]> [live_slot])
             (erase_first 0 [0] ++ [0]) []),
          log (Unref_events live_slot) quiet_world).
Proof.
  apply (GetPicture_reuses_the_picture_buffer (mkEngine true 0 0 (FrameData 2))
           0 live_slot (mkPool [live_slot] [0] []) quiet_world).
  - split; [reflexivity | by right].
  - lia.
  - reflexivity.
  - reflexivity.
  - reflexivity.
  - by eexists.
  - reflexivity.
Defined.

Lemma Get_keeps_allocated p w ptr p2 w2 :
  slots_allocated p -> w_heap w (w_trace w) = true ->
  Get p w = Some ((ptr, p2), w2) ->
  slots_allocated p2 /\ w_heap w2 = w_heap w.
Proof.
  intros Halloc Hheap HG. unfold slots_allocated in *.
  destruct (m_free p) as [|idx rest] eqn:Hfree.
  - rewrite (Get_new p w Hfree) in HG. injection HG as <- <- <-. simpl.
    split; [|done]. apply Forall_app_2; [done|].
    apply Forall_singleton. rewrite Hheap. by eexists.
  - unfold Get in HG. rewrite Hfree in HG.
    apply bind_inv in HG as (s & w1 & Hat & Hret).
    apply vector_at_inv in Hat as (Hidx & Hs & Hw). simpl in Hs, Hw.
    unfold ret in Hret. injection Hret as <- <- <-. subst w1.
    split; [|done]. unfold store. simpl. apply Forall_insert; [done|].
    rewrite Forall_lookup in Halloc.
    change (is_Some (m_pFrame s)). by eapply Halloc.
Qed.

(** [GetPicture] can be called over and over. On a pool in order, with
    holders allocated, memory at hand and a picture that holds nothing or a
    buffer in use, it always returns, and the pool is in order again: [m_used]
    and [m_free] partition the slots, every slot has its holder, the buffer
    the picture now holds is in use, free slots stay idle and without holder
    count, and at most one slot was added. *)
Theorem GetPicture_keeps_pool_in_order (e : Engine) (vb : option Z)
    (p : CVideoBufferPoolDRMPRIME) (w : World) :
  pool_inv p -> fits_int p -> slots_allocated p ->
  (forall tr, w_heap w tr = true) -> held_buffer vb p ->
  exists rc vb' p' w',
    GetPicture e vb p w = Some ((rc, vb', p'), w')
    /\ pool_inv p' /\ slots_allocated p' /\ held_buffer vb' p'
    /\ (free_idle p -> free_idle p')
    /\ (free_unheld p -> free_unheld p')
    /\ (length (m_all p) <= length (m_all p') <= S (length (m_all p)))%nat
    /\ (forall tr, w_heap w' tr = true).
Proof.
  intros Hinv Hfit Halloc Hheap Hvb.
  assert (receive_ret e <> 0 \/ (HWAccelEnabled e = true /\ map_ret e <> 0)
          \/ engine_ok e) as [Hno | [Hno | (Hrecv & Hmap)]].
  { unfold engine_ok. destruct (decide (receive_ret e = 0)); [|by left].
    destruct (HWAccelEnabled e).
    - destruct (decide (map_ret e = 0)).
      + right. right. split; [done|by right].
      + right. left. done.
    - right. right. split; [done|by left]. }
  1, 2: destruct (GetPicture_no_frame e vb p w) as (rc & HG);
    [by auto | exists rc, vb, p, w;
               split; [done|]; split; [done|]; split; [done|];
               split; [done|]; split; [done|]; split; [done|];
               split; [lia|done]].
  assert (exists p1 w1,
            match vb with Some old => Release old p | None => ret p end w
            = Some (p1, w1)
            /\ pool_inv p1 /\ slots_allocated p1
            /\ length (m_all p1) = length (m_all p)
            /\ w_heap w1 = w_heap w
            /\ (free_idle p -> free_idle p1)
            /\ (free_unheld p -> free_unheld p1))
    as (p1 & w1 & Hrel & Hinv1 & Halloc1 & Hlen1 & Hheap1 & Hidle1 & Hheld1).
  { destruct vb as [old|].
    - by apply Release_preserves.
    - by exists p, w. }
  assert (fits_int p1) as Hfit1 by (unfold fits_int in *; by rewrite Hlen1).
  assert (w_heap w1 (w_trace w1) = true) as Hh1 by by rewrite Hheap1.
  destruct (Get_shape p1 w1 Hinv1 Hfit1)
    as (ptr & p2 & w2 & HG & Hinv2 & Hu & Hf & _ & Hlen2).
  destruct (Get_slot_ready p1 w1 Hinv1 Hfit1 Halloc1 Hh1)
    as (ptr' & s & p2' & w2' & HG' & Hptr & Hs & [f Hfs] & Hused & _).
  rewrite HG in HG'. injection HG' as <- <- <-.
  destruct (Get_keeps_allocated p1 w1 ptr p2 w2 Halloc1 Hh1 HG)
    as [Halloc2 Hheap2].
  exists VC_PICTURE, (Some ptr). eexists _, w2.
  split.
  { unfold GetPicture. rewrite Hrecv.
    rewrite !bool_decide_eq_false_2
      by (unfold AVERROR_EAGAIN, AVERROR_EOF; lia).
    assert (HWAccelEnabled e && bool_decide (map_ret e <> 0) = false) as ->.
    { destruct Hmap as [-> | ->]; [done|].
      rewrite bool_decide_eq_false_2 by lia. apply andb_false_r. }
    rewrite (bind_Some _ _ _ _ _ Hrel), (bind_Some _ _ _ _ _ HG). simpl.
    rewrite (bind_Some _ _ _ _ _ (vector_at_Some _ _ _ _ Hptr Hs)).
    unfold SetRef. rewrite Hfs. reflexivity. }
  simpl.
  split; [by eapply store_inv|].
  split; [unfold slots_allocated, store; simpl;
          apply Forall_insert; [done|by eexists]|].
  split; [done|].
  assert (forall P, free_all P p1 -> free_all P (store p2 ptr
            (mkBuffer (m_id s) (m_refCount s) (m_drm_fd s) (m_fb_id s)
               (m_handles s) (Some (decoded e))))) as Hfree_all.
  { intros P HP. apply free_all_store; [done| |done|].
    - by apply inv_disjoint.
    - exact (Get_keeps_free_all P p1 w1 ptr p2 w2 Hinv1 HG HP). }
  split; [intros Hidle; by apply Hfree_all, Hidle1|].
  split; [intros Hheld; by apply Hfree_all, Hheld1|].
  split.
  { unfold store. simpl. rewrite length_insert.
    destruct (m_free p1); lia. }
  intros tr. by rewrite Hheap2, Hheap1.
Qed.

Lemma GetPicture_keeps_pool_in_order_witness :
  exists rc vb' p' w',
    GetPicture (mkEngine true 0 0 (FrameData 2)) (Some 1)
      (mkPool [blank_slot 0; Acquire (Acquire (blank_slot 1))] [1] [0])
      quiet_world = Some ((rc, vb', p'), w')
    /\ pool_inv p' /\ slots_allocated p' /\ held_buffer vb' p'
    /\ (free_idle (mkPool [blank_slot 0; Acquire (Acquire (blank_slot 1))]
                     [1] [0]) -> free_idle p')
    /\ (free_unheld (mkPool [blank_slot 0; Acquire (Acquire (blank_slot 1))]
                       [1] [0]) -> free_unheld p')
    /\ (2 <= length (m_all p') <= 3)%nat
    /\ (forall tr, w_heap w' tr = true).
Proof.
  apply (GetPicture_keeps_pool_in_order (mkEngine true 0 0 (FrameData 2))
           (Some 1)
           (mkPool [blank_slot 0; Acquire (Acquire (blank_slot 1))] [1] [0])
           quiet_world).
  - split; [apply Permutation_swap | reflexivity].
  - unfold fits_int. vm_compute. discriminate.
  - unfold slots_allocated. simpl. concrete_slots.
  - reflexivity.
  - apply list_elem_of_here.
Defined.

(** ** The choice of the decoder *)

Section FindDecoderProperties.
Import Codec.

Lemma config_loop_S f cfgs j :
  config_loop (S f) cfgs j
  = match cfgs !! j with
    | None => Some None
    | Some c =>
        if bool_decide (device_type c = AV_HWDEVICE_TYPE_VAAPI) then
          if methods_ok (methods c) then Some (Some AV_HWDEVICE_TYPE_VAAPI)
          else config_loop f cfgs 1
        else config_loop f cfgs 2
    end.
Proof.
  simpl. destruct (cfgs !! j) as [c|]; [|done].
  unfold DRMPrimeDeviceTypes. simpl.
  case_bool_decide; simpl; [|done]. by destruct (methods_ok (methods c)).
Qed.

Lemma config_loop_0 cfgs j : config_loop 0 cfgs j = None.
Proof. done. Qed.

Global Opaque config_loop.

Lemma config_loop_stuck_at_1 cfgs c :
  cfgs !! 1%nat = Some c -> device_type c = AV_HWDEVICE_TYPE_VAAPI ->
  methods_ok (methods c) = false ->
  forall f, config_loop f cfgs 1 = None.
Proof.
  intros Hc Hdt Hm f. induction f as [|f IH]; [apply config_loop_0|].
  by rewrite config_loop_S, Hc, bool_decide_eq_true_2, Hm.
Qed.

Lemma config_loop_stuck_at_2 cfgs c :
  cfgs !! 2%nat = Some c -> device_type c <> AV_HWDEVICE_TYPE_VAAPI ->
  forall f, config_loop f cfgs 2 = None.
Proof.
  intros Hc Hdt f. induction f as [|f IH]; [apply config_loop_0|].
  by rewrite config_loop_S, Hc, bool_decide_eq_false_2.
Qed.

Lemma config_loop_stuck_between cfgs c1 c2 :
  cfgs !! 1%nat = Some c1 -> device_type c1 <> AV_HWDEVICE_TYPE_VAAPI ->
  cfgs !! 2%nat = Some c2 -> device_type c2 = AV_HWDEVICE_TYPE_VAAPI ->
  methods_ok (methods c2) = false ->
  forall f, config_loop f cfgs 1 = None /\ config_loop f cfgs 2 = None.
Proof.
  intros H1 Hd1 H2 Hd2 Hm f.
  induction f as [|f [IH1 IH2]]; [split; apply config_loop_0|].
  split.
  - by rewrite config_loop_S, H1, bool_decide_eq_false_2.
  - by rewrite config_loop_S, H2, bool_decide_eq_true_2, Hm.
Qed.

(** The outcome of the loop depends on [fuel] only through its being large
    enough. *)
Lemma config_loop_more_fuel f :
  forall cfgs j r f',
    config_loop f cfgs j = Some r -> (f <= f')%nat ->
    config_loop f' cfgs j = Some r.
Proof.
  induction f as [|f IH]; intros cfgs j r f' Hr Hle.
  - by rewrite config_loop_0 in Hr.
  - destruct f' as [|f']; [lia|].
    rewrite config_loop_S in Hr. rewrite config_loop_S.
    destruct (cfgs !! j) as [c|]; [|done].
    case_bool_decide.
    + destruct (methods_ok (methods c)); [done|]. apply (IH _ _ _ _ Hr). lia.
    + apply (IH _ _ _ _ Hr). lia.
Qed.

Lemma config_loop_settles_12 cfgs j :
  j = 1%nat \/ j = 2%nat ->
  (exists r, config_loop 2 cfgs j = Some r)
  \/ (forall f, config_loop f cfgs j = None).
Proof.
  intros Hj.
  destruct (cfgs !! 1%nat) as [c1|] eqn:H1;
    destruct (cfgs !! 2%nat) as [c2|] eqn:H2;
    try (destruct (decide (device_type c1 = AV_HWDEVICE_TYPE_VAAPI)) as [D1|D1];
         destruct (methods_ok (methods c1)) eqn:M1);
    try (destruct (decide (device_type c2 = AV_HWDEVICE_TYPE_VAAPI)) as [D2|D2];
         destruct (methods_ok (methods c2)) eqn:M2);
    destruct Hj as [-> | ->];
    first
      [ left; eexists; rewrite !config_loop_S, ?H1, ?H2;
        rewrite ?(bool_decide_eq_true_2 _ D1), ?(bool_decide_eq_false_2 _ D1),
          ?(bool_decide_eq_true_2 _ D2), ?(bool_decide_eq_false_2 _ D2),
          ?M1, ?M2, ?H1, ?H2;
        rewrite ?(bool_decide_eq_true_2 _ D1), ?(bool_decide_eq_false_2 _ D1),
          ?(bool_decide_eq_true_2 _ D2), ?(bool_decide_eq_false_2 _ D2),
          ?M1, ?M2;
        reflexivity
      | right; by eapply config_loop_stuck_at_1
      | right; by eapply config_loop_stuck_at_2
      | right; intros f; by eapply config_loop_stuck_between
      | right; intros f; rewrite <- (Nat.add_0_r f); destruct f as [|f];
        [apply config_loop_0|];
        rewrite Nat.add_0_r, config_loop_S, ?H1, ?H2,
          ?(bool_decide_eq_true_2 _ D1), ?(bool_decide_eq_false_2 _ D1),
          ?(bool_decide_eq_true_2 _ D2), ?(bool_decide_eq_false_2 _ D2),
          ?M1, ?M2;
        first [ by eapply config_loop_stuck_at_1
              | by eapply config_loop_stuck_at_2
              | by eapply config_loop_stuck_between ] ].
Qed.

(** The loop over the hardware configurations of a codec either ends within
    three iterations, with the same outcome however many more are allowed, or
    never ends. *)
Theorem config_loop_ends_in_three_or_never (cfgs : list AVCodecHWConfig) :
  (exists r, forall f, (3 <= f)%nat -> config_loop f cfgs 0 = Some r)
  \/ (forall f, config_loop f cfgs 0 = None).
Proof.
  assert (forall j, j = 1%nat \/ j = 2%nat ->
            (exists r, forall f, (3 <= f)%nat ->
                         config_loop f cfgs 0 = config_loop (f - 1) cfgs j
                         -> config_loop f cfgs 0 = Some r)
            \/ (forall f, config_loop f cfgs j = None)) as Hnext.
  { intros j Hj. destruct (config_loop_settles_12 cfgs j Hj) as [[r Hr]|Hnever].
    - left. exists r. intros f Hf ->.
      apply (config_loop_more_fuel 2); [done|lia].
    - by right. }
  destruct (cfgs !! 0%nat) as [c0|] eqn:H0.
  - destruct (decide (device_type c0 = AV_HWDEVICE_TYPE_VAAPI)) as [D0|D0].
    + destruct (methods_ok (methods c0)) eqn:M0.
      * left. exists (Some AV_HWDEVICE_TYPE_VAAPI). intros [|f] Hf; [lia|].
        by rewrite config_loop_S, H0, bool_decide_eq_true_2, M0.
      * destruct (Hnext 1%nat ltac:(auto)) as [[r Hr]|Hnever].
        -- left. exists r. intros [|f] Hf; [lia|]. apply Hr; [done|].
           rewrite config_loop_S, H0, bool_decide_eq_true_2, M0 by done.
           by rewrite Nat.sub_1_r.
        -- right. intros [|f]; [apply config_loop_0|].
           by rewrite config_loop_S, H0, bool_decide_eq_true_2, M0.
    + destruct (Hnext 2%nat ltac:(auto)) as [[r Hr]|Hnever].
      * left. exists r. intros [|f] Hf; [lia|]. apply Hr; [done|].
        rewrite config_loop_S, H0, bool_decide_eq_false_2 by done.
        by rewrite Nat.sub_1_r.
      * right. intros [|f]; [apply config_loop_0|].
        by rewrite config_loop_S, H0, bool_decide_eq_false_2.
  - left. exists None. intros [|f] Hf; [lia|].
    by rewrite config_loop_S, H0.
Qed.

Lemma config_loop_take_3 f :
  forall cfgs j,
    (j <= 2)%nat -> config_loop f cfgs j = config_loop f (take 3 cfgs) j.
Proof.
  induction f as [|f IH]; intros cfgs j Hj; [by rewrite !config_loop_0|].
  rewrite !config_loop_S, lookup_take_lt by lia.
  destruct (cfgs !! j) as [c|]; [|done].
  by rewrite <- !IH by lia.
Qed.

(** The loop never looks at a configuration after the third: whatever the
    number of iterations allowed, its outcome on a list of configurations is
    its outcome on the first three. A codec whose usable VAAPI configuration
    comes fourth or later is not found through it. *)
Theorem config_loop_reads_first_three_only (f : nat)
    (cfgs : list AVCodecHWConfig) :
  config_loop f cfgs 0 = config_loop f (take 3 cfgs) 0.
Proof. apply config_loop_take_3. lia. Qed.

Lemma config_loop_found f :
  forall cfgs j t,
    config_loop f cfgs j = Some (Some t) ->
    t = AV_HWDEVICE_TYPE_VAAPI
    /\ exists k c,
         (k = j \/ k = 1%nat \/ k = 2%nat) /\ cfgs !! k = Some c
         /\ device_type c = AV_HWDEVICE_TYPE_VAAPI
         /\ methods_ok (methods c) = true.
Proof.
  induction f as [|f IH]; intros cfgs j t Hr.
  - by rewrite config_loop_0 in Hr.
  - rewrite config_loop_S in Hr.
    destruct (cfgs !! j) as [c|] eqn:Hc; [|done].
    case_bool_decide as Hd.
    + destruct (methods_ok (methods c)) eqn:Hm.
      * injection Hr as <-. split; [done|]. exists j, c. auto.
      * destruct (IH _ _ _ Hr) as (-> & k & c' & Hk & ?).
        split; [done|]. exists k, c'. split; [|done].
        destruct Hk as [->|[->| ->]]; auto.
    + destruct (IH _ _ _ Hr) as (-> & k & c' & Hk & ?).
      split; [done|]. exists k, c'. split; [|done].
      destruct Hk as [->|[->| ->]]; auto.
Qed.

Lemma has_drm_prime_elem fmts :
  has_drm_prime fmts = true <-> AV_PIX_FMT_DRM_PRIME ∈ fmts.
Proof.
  induction fmts as [|fmt rest IH]; simpl.
  - split; [done|]. intros H. by apply elem_of_nil in H.
  - case_bool_decide as Hf.
    + subst fmt. split; [|done]. intros _. apply list_elem_of_here.
    + rewrite IH. split.
      * intros H. by apply list_elem_of_further.
      * intros H. apply elem_of_cons in H as [H|H]; [congruence|done].
Qed.

(** What [FindDecoder] returns is sound. A codec it returns is one of the
    listed codecs, is a decoder, and has the id asked for; and either it
    lists DRM PRIME among its pixel formats, and then [m_HWDeviceType] is left
    as it was, or it has no list of pixel formats and one of its first three
    hardware configurations is VAAPI with both the device-context and the
    frames-context method, and then [m_HWDeviceType] is VAAPI. When nullptr
    is returned, [m_HWDeviceType] is as it was. *)
Theorem FindDecoder_sound (fuel : nat) (codecs : list AVCodec) (hint : Z)
    (hw hw' : AVHWDeviceType) (found : option AVCodec) :
  FindDecoder fuel codecs hint hw = Some (found, hw') ->
  match found with
  | None => hw' = hw
  | Some codec =>
      codec ∈ codecs /\ is_decoder codec = true /\ codec_id codec = hint
      /\ ((exists fmts, pix_fmts codec = Some fmts
                        /\ AV_PIX_FMT_DRM_PRIME ∈ fmts /\ hw' = hw)
          \/ (pix_fmts codec = None /\ hw' = AV_HWDEVICE_TYPE_VAAPI
              /\ exists k c,
                   (k <= 2)%nat /\ hw_configs codec !! k = Some c
                   /\ device_type c = AV_HWDEVICE_TYPE_VAAPI
                   /\ methods_ok (methods c) = true))
  end.
Proof.
  induction codecs as [|codec rest IH]; simpl; intros Hr.
  - by injection Hr as <- <-.
  - assert (FindDecoder fuel rest hint hw = Some (found, hw') ->
            match found with
            | None => hw' = hw
            | Some codec0 =>
                codec0 ∈ codec :: rest /\ is_decoder codec0 = true
                /\ codec_id codec0 = hint
                /\ ((exists fmts, pix_fmts codec0 = Some fmts
                                  /\ AV_PIX_FMT_DRM_PRIME ∈ fmts /\ hw' = hw)
                    \/ (pix_fmts codec0 = None
                        /\ hw' = AV_HWDEVICE_TYPE_VAAPI
                        /\ exists k c,
                             (k <= 2)%nat /\ hw_configs codec0 !! k = Some c
                             /\ device_type c = AV_HWDEVICE_TYPE_VAAPI
                             /\ methods_ok (methods c) = true))
            end) as Hrest.
    { intros Hr'. specialize (IH Hr'). destruct found as [c0|]; [|done].
      destruct IH as (Hin & ?). split; [by apply list_elem_of_further|done]. }
    destruct (is_decoder codec && bool_decide (codec_id codec = hint))
      eqn:Hmatch; [|by apply Hrest].
    apply andb_prop in Hmatch as [Hdec Hid].
    apply bool_decide_eq_true_1 in Hid.
    destruct (pix_fmts codec) as [fmts|] eqn:Hfmts.
    + destruct (has_drm_prime fmts) eqn:Hdrm; [|by apply Hrest].
      injection Hr as <- <-.
      split; [apply list_elem_of_here|]. split; [done|]. split; [done|].
      left. exists fmts. split; [done|]. split; [|done].
      by apply has_drm_prime_elem.
    + destruct (config_loop fuel (hw_configs codec) 0) as [[t|]|] eqn:Hloop;
        [| by apply Hrest | done].
      injection Hr as <- <-.
      apply config_loop_found in Hloop as (-> & k & c & Hk & Hc & Hd & Hm).
      split; [apply list_elem_of_here|]. split; [done|]. split; [done|].
      right. split; [done|]. split; [done|].
      exists k, c. split; [|done]. destruct Hk as [->|[->| ->]]; lia.
Qed.

Lemma FindDecoder_sound_witness :
  match Some (mkCodec true 27 None
                [mkHWConfig (AV_HWDEVICE_TYPE_other 1) 3;
                 mkHWConfig AV_HWDEVICE_TYPE_DRM 3;
                 mkHWConfig AV_HWDEVICE_TYPE_VAAPI 3]) with
  | None => AV_HWDEVICE_TYPE_VAAPI = AV_HWDEVICE_TYPE_NONE
  | Some codec =>
      codec ∈ [mkCodec false 27 (Some [AV_PIX_FMT_DRM_PRIME]) [];
               mkCodec true 27 (Some [AV_PIX_FMT_NV12]) [];
               mkCodec true 27 None
                 [mkHWConfig (AV_HWDEVICE_TYPE_other 1) 3;
                  mkHWConfig AV_HWDEVICE_TYPE_DRM 3;
                  mkHWConfig AV_HWDEVICE_TYPE_VAAPI 3]]
      /\ is_decoder codec = true /\ codec_id codec = 27
      /\ ((exists fmts, pix_fmts codec = Some fmts
                        /\ AV_PIX_FMT_DRM_PRIME ∈ fmts
                        /\ AV_HWDEVICE_TYPE_VAAPI = AV_HWDEVICE_TYPE_NONE)
          \/ (pix_fmts codec = None
              /\ AV_HWDEVICE_TYPE_VAAPI = AV_HWDEVICE_TYPE_VAAPI
              /\ exists k c,
                   (k <= 2)%nat /\ hw_configs codec !! k = Some c
                   /\ device_type c = AV_HWDEVICE_TYPE_VAAPI
                   /\ methods_ok (methods c) = true))
  end.
Proof.
  apply (FindDecoder_sound 3
           [mkCodec false 27 (Some [AV_PIX_FMT_DRM_PRIME]) [];
            mkCodec true 27 (Some [AV_PIX_FMT_NV12]) [];
            mkCodec true 27 None
              [mkHWConfig (AV_HWDEVICE_TYPE_other 1) 3;
               mkHWConfig AV_HWDEVICE_TYPE_DRM 3;
               mkHWConfig AV_HWDEVICE_TYPE_VAAPI 3]]
           27 AV_HWDEVICE_TYPE_NONE).
  vm_compute. reflexivity.
Defined.

Lemma FindDecoder_skips before :
  forall fuel rest hint hw,
    Forall (fun c => is_decoder c = false \/ codec_id c <> hint) before ->
    FindDecoder fuel (before ++ rest) hint hw = FindDecoder fuel rest hint hw.
Proof.
  induction before as [|c before IH]; intros fuel rest hint hw Hb; [done|].
  apply Forall_cons_1 in Hb as [Hc Hb]. simpl.
  assert (is_decoder c && bool_decide (codec_id c = hint) = false) as ->.
  { destruct Hc as [-> | Hne]; [done|].
    rewrite bool_decide_eq_false_2 by done. apply andb_false_r. }
  by apply IH.
Qed.

(** [FindDecoder] can hang. It gets to a decoder for the codec asked for that
    has no list of pixel formats and whose first and third hardware
    configurations are not VAAPI: the loop over its configurations never
    ends, whatever the second configuration is and whatever codecs follow. *)
Theorem FindDecoder_never_returns (before rest : list AVCodec)
    (codec : AVCodec) (c0 c2 : AVCodecHWConfig) (hint : Z)
    (hw : AVHWDeviceType) :
  Forall (fun c => is_decoder c = false \/ codec_id c <> hint) before ->
  is_decoder codec = true -> codec_id codec = hint ->
  pix_fmts codec = None ->
  hw_configs codec !! 0%nat = Some c0 ->
  device_type c0 <> AV_HWDEVICE_TYPE_VAAPI ->
  hw_configs codec !! 2%nat = Some c2 ->
  device_type c2 <> AV_HWDEVICE_TYPE_VAAPI ->
  forall fuel,
    FindDecoder fuel (before ++ codec :: rest) hint hw = None.
Proof.
  intros Hb Hdec Hid Hfm H0 Hd0 H2 Hd2 fuel.
  rewrite FindDecoder_skips by done. simpl.
  rewrite Hdec, bool_decide_eq_true_2, Hfm by done. simpl.
  assert (config_loop fuel (hw_configs codec) 0 = None) as ->; [|done].
  destruct fuel as [|fuel]; [apply config_loop_0|].
  rewrite config_loop_S, H0, bool_decide_eq_false_2 by done.
  by eapply config_loop_stuck_at_2.
Qed.

Lemma FindDecoder_never_returns_witness :
  FindDecoder 1000
    ([mkCodec true 12 None []]
     ++ mkCodec true 27 None
          [mkHWConfig (AV_HWDEVICE_TYPE_other 2) 3;
           mkHWConfig AV_HWDEVICE_TYPE_VAAPI 3;
           mkHWConfig (AV_HWDEVICE_TYPE_other 1) 3]
     :: [mkCodec true 27 (Some [AV_PIX_FMT_DRM_PRIME]) []])
    27 AV_HWDEVICE_TYPE_NONE = None.
Proof.
  generalize 1000%nat.
  apply (FindDecoder_never_returns [mkCodec true 12 None []]
           [mkCodec true 27 (Some [AV_PIX_FMT_DRM_PRIME]) []]
           (mkCodec true 27 None
              [mkHWConfig (AV_HWDEVICE_TYPE_other 2) 3;
               mkHWConfig AV_HWDEVICE_TYPE_VAAPI 3;
               mkHWConfig (AV_HWDEVICE_TYPE_other 1) 3])
           (mkHWConfig (AV_HWDEVICE_TYPE_other 2) 3)
           (mkHWConfig (AV_HWDEVICE_TYPE_other 1) 3) 27 AV_HWDEVICE_TYPE_NONE).
  - apply Forall_cons_2; [|apply Forall_nil_2]. right. discriminate.
  - reflexivity.
  - reflexivity.
  - reflexivity.
  - reflexivity.
  - discriminate.
  - reflexivity.
  - discriminate.
Defined.

(** When no listed codec is a decoder for the codec asked for, [FindDecoder]
    returns nullptr without a single look at a hardware configuration (no
    iteration is needed) and leaves [m_HWDeviceType] alone. *)
Theorem FindDecoder_without_candidate (fuel : nat) (codecs : list AVCodec)
    (hint : Z) (hw : AVHWDeviceType) :
  Forall (fun c => is_decoder c = false \/ codec_id c <> hint) codecs ->
  FindDecoder fuel codecs hint hw = Some (None, hw).
Proof.
  intros Hnone. rewrite <- (app_nil_r codecs).
  by rewrite FindDecoder_skips.
Qed.

Lemma FindDecoder_without_candidate_witness :
  FindDecoder 0
    [mkCodec false 27 (Some [AV_PIX_FMT_DRM_PRIME]) [];
     mkCodec true 12 None [mkHWConfig AV_HWDEVICE_TYPE_VAAPI 3]]
    27 AV_HWDEVICE_TYPE_DRM
  = Some (None, AV_HWDEVICE_TYPE_DRM).
Proof.
  apply (FindDecoder_without_candidate 0
           [mkCodec false 27 (Some [AV_PIX_FMT_DRM_PRIME]) [];
            mkCodec true 12 None [mkHWConfig AV_HWDEVICE_TYPE_VAAPI 3]]
           27 AV_HWDEVICE_TYPE_DRM).
  apply Forall_cons_2; [by left|].
  apply Forall_cons_2; [right; discriminate|]. apply Forall_nil_2.
Defined.

Lemma FindDecoder_hw_type fuel codecs hint hw :
  forall found hw',
    FindDecoder fuel codecs hint hw = Some (found, hw') ->
    match found with
    | None => hw' = hw
    | Some codec =>
        (is_Some (pix_fmts codec) /\ hw' = hw)
        \/ (pix_fmts codec = None /\ hw' = AV_HWDEVICE_TYPE_VAAPI)
    end.
Proof.
  induction codecs as [|codec rest IH]; simpl; intros found hw' Hr.
  - by injection Hr as <- <-.
  - destruct (is_decoder codec && bool_decide (codec_id codec = hint));
      [|by apply IH].
    destruct (pix_fmts codec) as [fmts|] eqn:Hfmts.
    + destruct (has_drm_prime fmts); [|by apply IH].
      injection Hr as <- <-. left. rewrite Hfmts. split; [by eexists|done].
    + destruct (config_loop fuel (hw_configs codec) 0) as [[t|]|] eqn:Hloop;
        [| by apply IH | done].
      injection Hr as <- <-. right. split; [done|].
      by apply config_loop_found in Hloop as (-> & _).
Qed.

(** Hardware decoding after [FindDecoder], when [m_HWDeviceType] was NONE on
    entry: [HWAccelEnabled()] is true exactly when a codec was returned that
    has no list of pixel formats, that is, one chosen through a VAAPI
    configuration. A decoder that lists DRM PRIME itself, and nullptr, leave
    it off. *)
Theorem HWAccelEnabled_after_FindDecoder (fuel : nat) (codecs : list AVCodec)
    (hint : Z) (found : option AVCodec) (hw' : AVHWDeviceType) :
  FindDecoder fuel codecs hint AV_HWDEVICE_TYPE_NONE = Some (found, hw') ->
  (HWAccelEnabled hw' = true
   <-> exists codec, found = Some codec /\ pix_fmts codec = None).
Proof.
  intros Hr. apply FindDecoder_hw_type in Hr.
  destruct found as [codec|].
  - destruct Hr as [[[fmts Hf] ->] | [Hf ->]].
    + split; [done|]. intros (c & [= <-] & Hn). congruence.
    + split; [|done]. intros _. by exists codec.
  - subst hw'. split; [done|]. by intros (c & [=] & _).
Qed.

Lemma HWAccelEnabled_after_FindDecoder_witness :
  HWAccelEnabled AV_HWDEVICE_TYPE_VAAPI = true
  <-> exists codec,
        Some (mkCodec true 27 None [mkHWConfig AV_HWDEVICE_TYPE_VAAPI 7])
        = Some codec /\ pix_fmts codec = None.
Proof.
  apply (HWAccelEnabled_after_FindDecoder 1
           [mkCodec true 27 (Some [AV_PIX_FMT_VAAPI]) [];
            mkCodec true 27 None [mkHWConfig AV_HWDEVICE_TYPE_VAAPI 7]] 27).
  vm_compute. reflexivity.
Defined.

End FindDecoderProperties.

(** ** Slots without a frame holder, and what [Get] calls *)






(** [Get] never calls into the kernel. Handing out a free slot makes no call
    at all; creating a slot makes one call, the allocation of its frame
    holder. *)
Theorem Get_calls_only_the_allocator (p : CVideoBufferPoolDRMPRIME)
    (w w' : World) (r : Z * CVideoBufferPoolDRMPRIME) :
  Get p w = Some (r, w') ->
  w' = log (match m_free p with [] => [EvFrameAlloc] | _ :: _ => [] end) w
  /\ filter (fun ev => is_kernel_release ev = true) (w_trace w')
     = filter (fun ev => is_kernel_release ev = true) (w_trace w).
Proof.
  intros HG.
  assert (w' = log (match m_free p with [] => [EvFrameAlloc] | _ :: _ => [] end)
                 w) as ->.
  { destruct (m_free p) as [|idx rest] eqn:Hfree.
    - rewrite (Get_new p w Hfree) in HG. by injection HG as <- <-.
    - unfold Get in HG. rewrite Hfree in HG.
      apply bind_inv in HG as (s & w1 & Hat & Hret).
      apply vector_at_inv in Hat as (_ & _ & Hw). simpl in Hw. subst w1.
      unfold ret in Hret. injection Hret as <- <-. by rewrite log_nil. }
  split; [done|]. simpl. rewrite filter_app.
  destruct (m_free p); simpl; by rewrite app_nil_r.
Qed.

Lemma Get_calls_only_the_allocator_witness :
  log [EvFrameAlloc] failing_world
  = log (match m_free empty_pool with [] => [EvFrameAlloc] | _ :: _ => [] end)
      failing_world
  /\ filter (fun ev => is_kernel_release ev = true)
       (w_trace (log [EvFrameAlloc] failing_world))
     = filter (fun ev => is_kernel_release ev = true) (w_trace failing_world).
Proof.
  apply (Get_calls_only_the_allocator empty_pool failing_world
           (log [EvFrameAlloc] failing_world)
           (0, mkPool [mkBuffer 0 1 (-1) 0 [0; 0; 0; 0] None] [0] [])).
  reflexivity.
Defined.
